(** * TUMAPS2: the navigation client, its gateway helpers and its session state

    A shallow embedding of
      - [lib/mapbox]   (gateway client, geometry and formatting helpers),
      - [types/navigation] (the entity records),
      - [app/page]     (the handlers of the [NavigationApp] component).

    Numbers.  A JavaScript [number] is modelled by an exact value: a rational
    ([Q]) where the code only compares, divides, floors and prints it, and a
    real ([R]) in the haversine formula, which needs [sin], [cos] and [atan2].
    A double is a rational, so the arguments and results of the formatting
    helpers are taken in [Q].  The quotient [meters / 1000] is rounded to
    the nearest double before [toFixed] sees it ([to_double]), since the
    digit printed depends on it; the quotients under [Math.floor] in
    [formatDuration] and the haversine formula are exact.  [NaN] and the
    infinities are outside the model; number-to-string conversion is the
    plain decimal expansion (JavaScript switches to exponent notation from
    1e21 on). *)

From Stdlib Require Import ZArith QArith Qround Qpower Reals Lra Lqa Lia List Bool.
From Stdlib Require Import String Ascii DecimalString.
From Stdlib Require DecimalZ Machin.
From Stdlib Require Import Qminmax.
Import ListNotations.

Open Scope string_scope.

(** ** JavaScript number primitives used by the helpers *)

Definition Qlt_bool (x y : Q) : bool := negb (Qle_bool y x).

(** [String(n)] for an integral number. *)
Definition string_of_Z (n : Z) : string := NilZero.string_of_int (Z.to_int n).

(** [Math.floor]. *)
Definition Math_floor (x : Q) : Z := Qfloor x.

(** [Math.round]: the nearest integer, a tie going towards plus infinity. *)
Definition Math_round (x : Q) : Z := Qfloor (x + (1 # 2))%Q.

(** Truncation towards zero, the quotient behind the [%] operator. *)
Definition Q_trunc (x : Q) : Z :=
  if Qlt_bool x 0 then Qceiling x else Qfloor x.

(** [x % y]: the remainder takes the sign of the dividend. *)
Definition js_rem (x y : Q) : Q := (x - y * inject_Z (Q_trunc (x / y)))%Q.

(** The exponent [e] with [2 ^ e <= a < 2 ^ (e + 1)], for a positive [a]:
    the difference of the bit lengths of numerator and denominator, or one
    less. *)
Definition binade (a : Q) : Z :=
  let e0 := (Z.log2 (Qnum a) - Z.log2 (Zpos (Qden a)))%Z in
  if Qle_bool (2 ^ e0) a then e0 else (e0 - 1)%Z.

(** The nearest integer, a tie going to the even one. *)
Definition round_half_even (x : Q) : Z :=
  let f := Qfloor x in
  match (x - inject_Z f ?= 1 # 2)%Q with
  | Lt => f
  | Gt => (f + 1)%Z
  | Eq => if Z.even f then f else (f + 1)%Z
  end.

(** The double nearest to [x] (IEEE-754 binary64, round to nearest, ties to
    even): 53 significant bits, exponents from -1022 on; a result beyond
    the largest double is not turned into an infinity. *)
Definition to_double (x : Q) : Q :=
  if Qeq_bool x 0 then 0%Q
  else
    let a := if Qlt_bool x 0 then (- x)%Q else x in
    let e := Z.max (binade a) (-1022) in
    let ulp := (2 ^ (e - 52))%Q in
    let r := (inject_Z (round_half_even (a / ulp)) * ulp)%Q in
    if Qlt_bool x 0 then (- r)%Q else r.

(** 2 ^ -53, half the distance from 1 to the next double. *)
Definition half_ulp : Q := 1 # 9007199254740992.

(** [x.toFixed(1)] for a double [x]: the sign is split off, then the integer
    [n] with [n / 10] nearest to the exact magnitude is taken (the larger
    one on a tie) and printed with the point before its last digit. *)
Definition toFixed1 (x : Q) : string :=
  let sign := if Qlt_bool x 0 then "-" else "" in
  let a := if Qlt_bool x 0 then (- x)%Q else x in
  let n := Qfloor (10 * a + (1 # 2))%Q in
  sign ++ string_of_Z (n / 10) ++ "." ++ string_of_Z (n mod 10).

(** ** lib/mapbox: formatting helpers *)

Definition formatDistance (meters : Q) : string :=
  if Qlt_bool meters 1000 then
    string_of_Z (Math_round meters) ++ " m"
  else
    toFixed1 (to_double (meters / 1000)) ++ " km".

Definition formatDuration (seconds : Q) : string :=
  let hours := Math_floor (seconds / 3600) in
  let minutes := Math_floor (js_rem seconds 3600 / 60) in
  if (0 <? hours)%Z then
    string_of_Z hours ++ "h " ++ string_of_Z minutes ++ "min"
  else
    string_of_Z minutes ++ " min".

(** ** types/navigation: coordinates *)

(** The [Coordinates] interface.  The payload type is a parameter: the
    gateway builds the record from whatever the response holds, the geometry
    works on numbers. *)
Record Coordinates (N : Type) : Type := mkCoordinates { lng : N; lat : N }.

Arguments mkCoordinates {N} _ _.
Arguments lng {N} _.
Arguments lat {N} _.

(** ** lib/mapbox: geometry *)

(** [Math.atan2 y x] on the reals. *)
Definition Math_atan2 (y x : R) : R :=
  if Rlt_dec 0 x then atan (y / x)
  else if Rlt_dec x 0 then
    if Rle_dec 0 y then (atan (y / x) + PI)%R else (atan (y / x) - PI)%R
  else if Rlt_dec 0 y then (PI / 2)%R
  else if Rlt_dec y 0 then (- (PI / 2))%R
  else 0%R.

(** 6371e3, the Earth radius in meters. *)
Definition earth_radius : R := 6371000%R.

(** The haversine term [a] of [calculateDistance]. *)
Definition haversine_a (coord1 coord2 : Coordinates R) : R :=
  let phi1 := (lat coord1 * PI / 180)%R in
  let phi2 := (lat coord2 * PI / 180)%R in
  let dphi := ((lat coord2 - lat coord1) * PI / 180)%R in
  let dlambda := ((lng coord2 - lng coord1) * PI / 180)%R in
  (sin (dphi / 2) * sin (dphi / 2)
   + cos phi1 * cos phi2 * sin (dlambda / 2) * sin (dlambda / 2))%R.

Definition calculateDistance (coord1 coord2 : Coordinates R) : R :=
  let a := haversine_a coord1 coord2 in
  let c := (2 * Math_atan2 (sqrt a) (sqrt (1 - a)))%R in
  (earth_radius * c)%R.

(** ** Parsed JSON and the JavaScript operations applied to it *)

(** A value of type [any] as [response.json()] delivers it, together with
    [undefined], which reading a missing property produces. *)
#[warnings="-register-all"] Inductive jsval : Type :=
| JUndefined
| JNull
| JBool (b : bool)
| JNum (q : Q)
| JStr (s : string)
| JArr (items : list jsval)
| JObj (fields : list (string * jsval)).

(** The outcome of an expression: a value, or a thrown [TypeError]. *)
Inductive completion (A : Type) : Type :=
| Normal (a : A)
| Throw.

Arguments Normal {A} _.
Arguments Throw {A}.

Definition bind {A B : Type} (c : completion A) (k : A -> completion B)
  : completion B :=
  match c with
  | Normal a => k a
  | Throw => Throw
  end.

Notation "x <- c ;; k" := (bind c (fun x => k))
  (at level 61, c at next level, right associativity).

Fixpoint own_property (k : string) (fields : list (string * jsval)) : jsval :=
  match fields with
  | [] => JUndefined
  | (k', v) :: rest => if String.eqb k k' then v else own_property k rest
  end.

(** [v.k] for one of the property names the gateway reads. *)
Definition get (v : jsval) (k : string) : completion jsval :=
  match v with
  | JUndefined | JNull => Throw
  | JObj fields => Normal (own_property k fields)
  | JArr items =>
      if String.eqb k "length" then
        Normal (JNum (inject_Z (Z.of_nat (List.length items))))
      else Normal JUndefined
  | JStr s =>
      if String.eqb k "length" then
        Normal (JNum (inject_Z (Z.of_nat (String.length s))))
      else Normal JUndefined
  | JBool _ | JNum _ => Normal JUndefined
  end.

(** [v[i]]. *)
Definition get_index (v : jsval) (i : nat) : completion jsval :=
  match v with
  | JUndefined | JNull => Throw
  | JArr items => Normal (nth i items JUndefined)
  | JStr s =>
      Normal (match String.get i s with
              | Some c => JStr (String c EmptyString)
              | None => JUndefined
              end)
  | JObj fields => Normal (own_property (string_of_Z (Z.of_nat i)) fields)
  | JBool _ | JNum _ => Normal JUndefined
  end.

(** Truthiness, as tested by [&&] and [if]. *)
Definition truthy (v : jsval) : bool :=
  match v with
  | JUndefined | JNull => false
  | JBool b => b
  | JNum q => negb (Qeq_bool q 0)
  | JStr s => negb (String.eqb s "")
  | JArr _ | JObj _ => true
  end.

Section ArrayMap.
Context {B : Type} (callback : jsval -> nat -> completion B).

Fixpoint map_from (index : nat) (items : list jsval)
  : completion (list B) :=
  match items with
  | [] => Normal []
  | item :: rest =>
      b <- callback item index ;;
      bs <- map_from (S index) rest ;;
      Normal (b :: bs)
  end.

(** [v.map(callback)]: only an array has the method; the first throwing
    call ends the traversal. *)
Definition array_map (v : jsval) : completion (list B) :=
  match v with
  | JArr items => map_from 0 items
  | _ => Throw
  end.
End ArrayMap.

(** The number of bytes of the UTF-8 sequence a byte starts. *)
Definition utf8_width (lead : ascii) : nat :=
  let n := nat_of_ascii lead in
  if (n <? 192)%nat then 1%nat
  else if (n <? 224)%nat then 2%nat
  else if (n <? 240)%nat then 3%nat
  else 4%nat.

(** The first code point of a text and what follows it. *)
Definition first_code_point (s : string) : option (string * string) :=
  match s with
  | EmptyString => None
  | String lead _ =>
      let w := utf8_width lead in
      Some (substring 0 w s, substring w (String.length s - w) s)
  end.

(** [const [x, y] = v]: the first two items of an iterable; a string is
    iterated code point by code point. *)
Definition destructure_pair (v : jsval) : completion (jsval * jsval) :=
  match v with
  | JArr items => Normal (nth 0 items JUndefined, nth 1 items JUndefined)
  | JStr s =>
      match first_code_point s with
      | None => Normal (JUndefined, JUndefined)
      | Some (x, rest) =>
          Normal (JStr x,
                  match first_code_point rest with
                  | Some (y, _) => JStr y
                  | None => JUndefined
                  end)
      end
  | _ => Throw
  end.

(** ** types/navigation: routes *)

(** Fields copied from the response keep the value found there. *)
Record RouteStep : Type := mkRouteStep {
  instruction : jsval;
  step_distance : jsval;
  step_duration : jsval;
  maneuver_type : jsval;
  maneuver_modifier : jsval
}.

Record Route : Type := mkRoute {
  route_id : string;
  route_distance : jsval;
  route_duration : jsval;
  geometry : jsval;
  steps : list RouteStep;
  isAlternative : bool
}.

(** ** lib/mapbox: gateway client *)

(** What [fetch(url)] followed by [response.json()] comes to. *)
Inductive fetch_outcome : Type :=
| TransportError
| ParseError
| Parsed (data : jsval).

Section Gateway.
(** [ToNumber] of a string, an array or an object goes through the
    JavaScript text of the value; it is left open.  [None] is [NaN]. *)
Variable ToNumber_text : jsval -> option Q.

Definition ToNumber (v : jsval) : option Q :=
  match v with
  | JUndefined => None
  | JNull => Some 0%Q
  | JBool b => Some (if b then 1%Q else 0%Q)
  | JNum q => Some q
  | JStr _ | JArr _ | JObj _ => ToNumber_text v
  end.

(** [v > 0]. *)
Definition gt_zero (v : jsval) : bool :=
  match ToNumber v with
  | Some x => Qlt_bool 0 x
  | None => false
  end.

(** The callback of the inner [steps.map]. *)
Definition mapStep (step : jsval) (_ : nat) : completion RouteStep :=
  m <- get step "maneuver" ;;
  i <- get m "instruction" ;;
  d <- get step "distance" ;;
  t <- get step "duration" ;;
  m1 <- get step "maneuver" ;;
  ty <- get m1 "type" ;;
  m2 <- get step "maneuver" ;;
  md <- get m2 "modifier" ;;
  Normal (mkRouteStep i d t ty md).

(** The callback of [data.routes.map]. *)
Definition mapRoute (route : jsval) (index : nat) : completion Route :=
  d <- get route "distance" ;;
  t <- get route "duration" ;;
  g <- get route "geometry" ;;
  legs <- get route "legs" ;;
  leg0 <- get_index legs 0 ;;
  ss <- get leg0 "steps" ;;
  mapped <- array_map mapStep ss ;;
  Normal (mkRoute ("route-" ++ string_of_Z (Z.of_nat index))
                  d t g mapped (0 <? index)%nat).

(** The body of the [try] block of [getDirections]. *)
Definition directions_body (data : jsval) : completion (list Route) :=
  routes <- get data "routes" ;;
  if truthy routes then
    len <- get routes "length" ;;
    if gt_zero len then array_map mapRoute routes else Normal []
  else Normal [].

(** [getDirections]; its arguments only shape the request URL, so the
    function is given the outcome of the request. *)
Definition getDirections (response : fetch_outcome) : list Route :=
  match response with
  | TransportError | ParseError => []
  | Parsed data =>
      match directions_body data with
      | Normal routes => routes
      | Throw => []
      end
  end.

(** The body of the [try] block of [geocodeAddress]. *)
Definition geocode_body (data : jsval)
  : completion (option (Coordinates jsval)) :=
  features <- get data "features" ;;
  if truthy features then
    len <- get features "length" ;;
    if gt_zero len then
      first <- get_index features 0 ;;
      center <- get first "center" ;;
      p <- destructure_pair center ;;
      Normal (Some (mkCoordinates (fst p) (snd p)))
    else Normal None
  else Normal None.

(** [geocodeAddress], given the outcome of its request.  The call that
    throws while building the URL never gets that far: it is the [Rejected]
    call of [handleSearch_settled]. *)
Definition geocodeAddress (response : fetch_outcome)
  : option (Coordinates jsval) :=
  match response with
  | TransportError | ParseError => None
  | Parsed data =>
      match geocode_body data with
      | Normal found => found
      | Throw => None
      end
  end.
End Gateway.

(** ** types/navigation and app/page: the session *)

Record NavigationState : Type := mkNavigationState {
  origin : option (Coordinates R);
  destination : option (Coordinates R);
  currentLocation : option (Coordinates R);
  routes : list Route;
  selectedRoute : option Route;
  isNavigating : bool;
  currentStepIndex : nat;
  isDarkMode : bool
}.

(** Calls that leave the component: speech and the two gateway requests. *)
Inductive effect : Type :=
| Speak (text : jsval)
| GeocodeCall (address : string)
| DirectionsCall (from to : Coordinates R) (alternatives : bool).

(** Everything [NavigationApp] keeps with [useState], and the calls made so
    far (latest first). *)
Record Session : Type := mkSession {
  state : NavigationState;
  originInput : string;
  destinationInput : string;
  isVoiceEnabled : bool;
  isLoading : bool;
  showRoutes : bool;
  effects : list effect
}.

(** Declared at the top of the page; the watch callback compares with the
    literal 50. *)
Definition RECALCULATE_THRESHOLD : R := 50%R.

Definition initialState : NavigationState :=
  mkNavigationState None None None [] None false 0 false.

Definition initialSession : Session :=
  mkSession initialState "" "" true false false [].

(** *** The setters *)

Definition setState (f : NavigationState -> NavigationState) (s : Session)
  : Session :=
  mkSession (f (state s)) (originInput s) (destinationInput s)
            (isVoiceEnabled s) (isLoading s) (showRoutes s) (effects s).

Definition setOriginInput (text : string) (s : Session) : Session :=
  mkSession (state s) text (destinationInput s)
            (isVoiceEnabled s) (isLoading s) (showRoutes s) (effects s).

Definition setDestinationInput (text : string) (s : Session) : Session :=
  mkSession (state s) (originInput s) text
            (isVoiceEnabled s) (isLoading s) (showRoutes s) (effects s).

Definition setIsVoiceEnabled (b : bool) (s : Session) : Session :=
  mkSession (state s) (originInput s) (destinationInput s)
            b (isLoading s) (showRoutes s) (effects s).

Definition setIsLoading (b : bool) (s : Session) : Session :=
  mkSession (state s) (originInput s) (destinationInput s)
            (isVoiceEnabled s) b (showRoutes s) (effects s).

Definition setShowRoutes (b : bool) (s : Session) : Session :=
  mkSession (state s) (originInput s) (destinationInput s)
            (isVoiceEnabled s) (isLoading s) b (effects s).

Definition perform (e : effect) (s : Session) : Session :=
  mkSession (state s) (originInput s) (destinationInput s)
            (isVoiceEnabled s) (isLoading s) (showRoutes s) (e :: effects s).

Definition speakInstruction (text : jsval) (s : Session) : Session :=
  perform (Speak text) s.

(** *** The updater functions handed to [setState] *)

(** [{ ...prev, isDarkMode: b }] *)
Definition with_isDarkMode (b : bool) (prev : NavigationState)
  : NavigationState :=
  mkNavigationState (origin prev) (destination prev) (currentLocation prev)
    (routes prev) (selectedRoute prev) (isNavigating prev)
    (currentStepIndex prev) b.

(** [{ ...prev, currentLocation: coords }] *)
Definition with_currentLocation (coords : Coordinates R)
  (prev : NavigationState) : NavigationState :=
  mkNavigationState (origin prev) (destination prev) (Some coords)
    (routes prev) (selectedRoute prev) (isNavigating prev)
    (currentStepIndex prev) (isDarkMode prev).

(** [{ ...prev, origin: originCoords, destination: destCoords }] *)
Definition with_endpoints (originCoords destCoords : Coordinates R)
  (prev : NavigationState) : NavigationState :=
  mkNavigationState (Some originCoords) (Some destCoords)
    (currentLocation prev) (routes prev) (selectedRoute prev)
    (isNavigating prev) (currentStepIndex prev) (isDarkMode prev).

(** [{ ...prev, routes, selectedRoute: routes[0] || null }] *)
Definition with_routes (found : list Route) (prev : NavigationState)
  : NavigationState :=
  mkNavigationState (origin prev) (destination prev) (currentLocation prev)
    found (hd_error found) (isNavigating prev)
    (currentStepIndex prev) (isDarkMode prev).

(** [{ ...prev, selectedRoute: route }] *)
Definition with_selectedRoute (route : Route) (prev : NavigationState)
  : NavigationState :=
  mkNavigationState (origin prev) (destination prev) (currentLocation prev)
    (routes prev) (Some route) (isNavigating prev)
    (currentStepIndex prev) (isDarkMode prev).

(** [{ ...prev, isNavigating: true, currentStepIndex: 0 }] *)
Definition started (prev : NavigationState) : NavigationState :=
  mkNavigationState (origin prev) (destination prev) (currentLocation prev)
    (routes prev) (selectedRoute prev) true 0 (isDarkMode prev).

(** [{ ...prev, isNavigating: false, currentStepIndex: 0, routes: [],
      selectedRoute: null, origin: null, destination: null }] *)
Definition stopped (prev : NavigationState) : NavigationState :=
  mkNavigationState None None (currentLocation prev)
    [] None false 0 (isDarkMode prev).

(** *** The effects run on mount *)

Definition autoDarkMode (hour : nat) (s : Session) : Session :=
  let shouldBeDark := ((hour <? 6) || (18 <=? hour))%nat in
  setState (with_isDarkMode shouldBeDark) s.

Definition currentPositionCallback (coords : Coordinates R) (s : Session)
  : Session :=
  setState (with_currentLocation coords) s.

(** *** The handlers *)

(** [handleSearch], given what the two [geocodeAddress] calls and the
    [getDirections] call resolve to, both geocoding calls being fulfilled;
    [handleSearch_settled] below adds the calls that reject.  The map
    fitting that follows the second commit touches no state. *)
Definition handleSearch
  (originCoords destCoords : option (Coordinates R)) (found : list Route)
  (s : Session) : Session :=
  if (String.eqb (originInput s) "" || String.eqb (destinationInput s) "")%bool
  then s
  else
    let s1 := setIsLoading true s in
    let s2 := perform (GeocodeCall (originInput s)) s1 in
    let s3 := perform (GeocodeCall (destinationInput s)) s2 in
    match originCoords, destCoords with
    | Some o, Some d =>
        let s4 := setState (with_endpoints o d) s3 in
        let s5 := perform (DirectionsCall o d true) s4 in
        let s6 := setState (with_routes found) s5 in
        let s7 := setShowRoutes true s6 in
        setIsLoading false s7
    | _, _ => setIsLoading false s3
    end.

(** How an awaited call ends.  [geocodeAddress] builds its URL with
    [encodeURIComponent] before its [try], so for a text with an unpaired
    surrogate the call rejects; [getDirections] always fulfils. *)
Inductive settled (A : Type) : Type :=
| Fulfilled (a : A)
| Rejected.

Arguments Fulfilled {A} _.
Arguments Rejected {A}.

(** [handleSearch] with calls that may reject: the rejection leaves the
    [try] block, is logged by the [catch], and [finally] turns the loading
    flag off. *)
Definition handleSearch_settled
  (originCall destCall : settled (option (Coordinates R)))
  (found : list Route) (s : Session) : Session :=
  if (String.eqb (originInput s) "" || String.eqb (destinationInput s) "")%bool
  then s
  else
    let s1 := setIsLoading true s in
    let s2 := perform (GeocodeCall (originInput s)) s1 in
    match originCall with
    | Rejected => setIsLoading false s2
    | Fulfilled originCoords =>
        let s3 := perform (GeocodeCall (destinationInput s)) s2 in
        match destCall with
        | Rejected => setIsLoading false s3
        | Fulfilled destCoords =>
            match originCoords, destCoords with
            | Some o, Some d =>
                let s4 := setState (with_endpoints o d) s3 in
                let s5 := perform (DirectionsCall o d true) s4 in
                let s6 := setState (with_routes found) s5 in
                let s7 := setShowRoutes true s6 in
                setIsLoading false s7
            | _, _ => setIsLoading false s3
            end
        end
    end.

Definition handleStartNavigation (s : Session) : Session :=
  match selectedRoute (state s) with
  | None => s
  | Some route =>
      let s1 := setState started s in
      match isVoiceEnabled s, nth_error (steps route) 0 with
      | true, Some first => speakInstruction (instruction first) s1
      | _, _ => s1
      end
  end.

Definition handleStopNavigation (s : Session) : Session :=
  setDestinationInput "" (setOriginInput "" (setShowRoutes false
    (setState stopped s))).

Definition handleSelectRoute (route : Route) (s : Session) : Session :=
  setState (with_selectedRoute route) s.

Definition toggleDarkMode (s : Session) : Session :=
  setState (fun prev => with_isDarkMode (negb (isDarkMode prev)) prev) s.

Definition toggleVoice (s : Session) : Session :=
  setIsVoiceEnabled (negb (isVoiceEnabled s)) s.

Definition arrival_message : jsval := JStr "Você chegou ao seu destino!".

(** The success callback of [watchPosition].  It reads [state] and
    [isVoiceEnabled] of the render that registered it ([rendered]); its
    updates apply to the session as it is when the position arrives. *)
Definition watchPositionCallback
  (rendered : Session) (newLocation : Coordinates R) (s : Session)
  : Session :=
  let s1 := setState (with_currentLocation newLocation) s in
  match origin (state rendered), destination (state rendered) with
  | Some _, Some dest =>
      match selectedRoute (state rendered) with
      | Some route =>
          match nth_error (steps route) (currentStepIndex (state rendered)) with
          | Some _ =>
              if Rlt_dec (calculateDistance newLocation dest) 50 then
                handleStopNavigation
                  (if isVoiceEnabled rendered
                   then speakInstruction arrival_message s1 else s1)
              else s1
          | None => s1
          end
      | None => s1
      end
  | _, _ => s1
  end.

(** *** The session as a transition system *)

(** What can happen to a mounted component: the position callbacks, typing,
    and the controls the markup offers. *)
Inductive event : Type :=
| OnCurrentPosition (coords : Coordinates R)
| OnTypeOrigin (text : string)
| OnTypeDestination (text : string)
| OnSearch (originCoords destCoords : option (Coordinates R))
         (found : list Route)
| OnSelectRoute (index : nat)
| OnStartNavigation
| OnStopNavigation
| OnToggleDarkMode
| OnToggleVoice
| OnWatchPosition (newLocation : Coordinates R).

(** The route panel is rendered under
    [showRoutes && state.routes.length > 0 && !state.isNavigating]. *)
Definition route_panel_shown (s : Session) : bool :=
  showRoutes s
  && (0 <? List.length (routes (state s)))%nat
  && negb (isNavigating (state s)).

(** The position watch is registered under
    [state.isNavigating && state.selectedRoute]. *)
Definition watching (s : Session) : bool :=
  isNavigating (state s)
  && match selectedRoute (state s) with Some _ => true | None => false end.

(** Where the markup and the watch effect allow each event: the inputs are
    disabled and the search button gives way to the stop button while
    navigating. *)
Definition enabled (e : event) (s : Session) : bool :=
  match e with
  | OnCurrentPosition _ | OnToggleDarkMode | OnToggleVoice => true
  | OnTypeOrigin _ | OnTypeDestination _ | OnSearch _ _ _ =>
      negb (isNavigating (state s))
  | OnSelectRoute index =>
      route_panel_shown s && (index <? List.length (routes (state s)))%nat
  | OnStartNavigation => route_panel_shown s
  | OnStopNavigation => isNavigating (state s)
  | OnWatchPosition _ => watching s
  end.

(** Each handler runs to completion.  Here the watch callback and the
    click on a route button are those of the latest render; [app_step]
    below adds the ones left over from earlier renders. *)
Definition handle (e : event) (s : Session) : Session :=
  match e with
  | OnCurrentPosition coords => currentPositionCallback coords s
  | OnTypeOrigin text => setOriginInput text s
  | OnTypeDestination text => setDestinationInput text s
  | OnSearch originCoords destCoords found =>
      handleSearch originCoords destCoords found s
  | OnSelectRoute index =>
      match nth_error (routes (state s)) index with
      | Some route => handleSelectRoute route s
      | None => s
      end
  | OnStartNavigation => handleStartNavigation s
  | OnStopNavigation => handleStopNavigation s
  | OnToggleDarkMode => toggleDarkMode s
  | OnToggleVoice => toggleVoice s
  | OnWatchPosition newLocation => watchPositionCallback s newLocation s
  end.

Fixpoint run (events : list event) (s : Session) : option Session :=
  match events with
  | [] => Some s
  | e :: rest => if enabled e s then run rest (handle e s) else None
  end.

(** A session is reachable when some hour of mounting and some sequence of
    enabled events lead to it. *)
Definition reachable (s : Session) : Prop :=
  exists (hour : nat) (events : list event),
    (hour < 24)%nat /\
    run events (autoDarkMode hour initialSession) = Some s.

(** ** Vocabulary of the statements *)

(** The Idle state of the session: not navigating, no routes held, none
    selected. *)
Definition idle (s : Session) : bool :=
  negb (isNavigating (state s))
  && (List.length (routes (state s)) =? 0)%nat
  && match selectedRoute (state s) with Some _ => false | None => true end.

Definition nullish (v : jsval) : bool :=
  match v with
  | JUndefined | JNull => true
  | _ => false
  end.

(** The [steps] array of the first leg of a route object, when the route
    has a first leg and that leg a [steps] array. *)
Definition first_leg_steps (route : jsval) : option (list jsval) :=
  match get route "legs" with
  | Normal legs =>
      match get_index legs 0 with
      | Normal leg0 =>
          match get leg0 "steps" with
          | Normal (JArr ss) => Some ss
          | _ => None
          end
      | Throw => None
      end
  | Throw => None
  end.

(** The step carries a [maneuver] that is neither [null] nor [undefined],
    so that its properties can be read. *)
Definition has_maneuver (step : jsval) : bool :=
  match get step "maneuver" with
  | Normal m => negb (nullish m)
  | Throw => false
  end.

(** A route that [mapRoute] can map: a first leg with a [steps] array, each
    step with a [maneuver] that can be read. *)
Definition well_formed_route (route : jsval) : bool :=
  match first_leg_steps route with
  | Some ss => forallb has_maneuver ss
  | None => false
  end.

(** [Number.prototype.toString] text of an array index. *)
Definition index_text (i : nat) : string := string_of_Z (Z.of_nat i).

(** A response body [{ routes: [...] }] with the given route objects. *)
Definition directions_response (rs : list jsval) : jsval :=
  JObj [("routes", JArr rs)].

(** A route object with the given steps in its only leg. *)
Definition route_object (distance duration : Q) (ss : list jsval) : jsval :=
  JObj [("distance", JNum distance); ("duration", JNum duration);
        ("geometry", JObj [("coordinates", JArr []);
                           ("type", JStr "LineString")]);
        ("legs", JArr [JObj [("steps", JArr ss)]])].

Definition step_object (text : string) (distance duration : Q) : jsval :=
  JObj [("distance", JNum distance); ("duration", JNum duration);
        ("maneuver", JObj [("instruction", JStr text);
                           ("type", JStr "depart")])].

(** A route object without [legs]. *)
Definition legless_route : jsval :=
  JObj [("distance", JNum 10); ("duration", JNum 5)].

(** The coercion under which no text reads as a number. *)
Definition no_text_number : jsval -> option Q := fun _ => None.

(** Sample data for the concrete runs. *)
Definition sample_step : RouteStep :=
  mkRouteStep (JStr "Siga em frente") (JNum 1200) (JNum 300)
              (JStr "depart") JUndefined.

Definition sample_route : Route :=
  mkRoute "route-0" (JNum 1200) (JNum 300)
          (JObj [("coordinates", JArr []); ("type", JStr "LineString")])
          [sample_step] false.

Definition greenwich_equator : Coordinates R := mkCoordinates 0%R 0%R.
Definition antimeridian_equator : Coordinates R := mkCoordinates 180%R 0%R.

(** Mounted at 20 h, both addresses typed, one route found, navigation
    started. *)
Definition night_drive : list event :=
  [OnTypeOrigin "Av. Paulista"; OnTypeDestination "Ibirapuera";
   OnSearch (Some antimeridian_equator) (Some greenwich_equator) [sample_route];
   OnStartNavigation].

Definition navigating_at_night : Session :=
  mkSession
    (mkNavigationState (Some antimeridian_equator) (Some greenwich_equator)
       None [sample_route] (Some sample_route) true 0 true)
    "Av. Paulista" "Ibirapuera" true false true
    [Speak (JStr "Siga em frente");
     DirectionsCall antimeridian_equator greenwich_equator true;
     GeocodeCall "Ibirapuera"; GeocodeCall "Av. Paulista"].

(** Mounted at noon with both addresses typed. *)
Definition addresses_typed : Session :=
  setDestinationInput "Ibirapuera"
    (setOriginInput "Av. Paulista" (autoDarkMode 12 initialSession)).


(** ** lib/mapbox: reverse geocoding *)


Section ReverseGeocoding.
Variable ToNumber_text : jsval -> option Q.


End ReverseGeocoding.

(** ** app/page: values derived while rendering *)

(** A GeoJSON feature as the page builds it for a route that is not
    selected: [{ type: 'Feature', properties: { routeId }, geometry }]. *)
Record RouteFeature : Type := mkRouteFeature {
  routeId : string;
  feature_geometry : jsval
}.

(** [r.id !== state.selectedRoute?.id]; without a selection the right-hand
    side is [undefined], which no id equals. *)
Definition not_selected (selected : option Route) (r : Route) : bool :=
  match selected with
  | Some chosen => negb (String.eqb (route_id r) (route_id chosen))
  | None => true
  end.

Definition alternativeRoutesGeoJSON (st : NavigationState)
  : list RouteFeature :=
  map (fun route => mkRouteFeature (route_id route) (geometry route))
      (filter (not_selected (selectedRoute st)) (routes st)).

(** The callback of [coordinates.reduce] in [handleSearch]: the bounds so
    far, south-west corner first, widened by one [lng, lat] pair. *)
Definition widen (bounds : (Q * Q) * (Q * Q)) (coord : Q * Q)
  : (Q * Q) * (Q * Q) :=
  ((Qmin (fst (fst bounds)) (fst coord), Qmin (snd (fst bounds)) (snd coord)),
   (Qmax (fst (snd bounds)) (fst coord), Qmax (snd (snd bounds)) (snd coord))).

(** The bounds handed to [fitBounds], for the coordinate pairs of the first
    route as the [Route] interface types them.  On an empty list
    [coordinates[0][0]] throws; [handleSearch] catches it after both commits. *)
Definition route_bounds (coordinates : list (Q * Q))
  : completion ((Q * Q) * (Q * Q)) :=
  match coordinates with
  | [] => Throw
  | first :: _ =>
      Normal (fold_left widen coordinates
                ((fst first, snd first), (fst first, snd first)))
  end.

(** The pair lies inside the bounds, sides included. *)
Definition within (bounds : (Q * Q) * (Q * Q)) (p : Q * Q) : Prop :=
  (fst (fst bounds) <= fst p)%Q /\ (fst p <= fst (snd bounds))%Q /\
  (snd (fst bounds) <= snd p)%Q /\ (snd p <= snd (snd bounds))%Q.

(** ** app/page: a search as it really runs, one await at a time *)

(** Where a call of [handleSearch] is suspended. *)
Inductive search_task : Type :=
| AwaitingOrigin (destinationText : string)
| AwaitingDestination (originCoords : option (Coordinates R))
| AwaitingDirections.

(** How an awaited gateway call ends: fulfilled with its result, or, for a
    geocoding call, rejected. *)
Inductive resolution : Type :=
| Geocoded (coords : option (Coordinates R))
| Routed (found : list Route)
| Failed.

(** [handleSearch] up to its first [await]. *)
Definition search_begin (s : Session) : Session * option search_task :=
  if (String.eqb (originInput s) "" || String.eqb (destinationInput s) "")%bool
  then (s, None)
  else (perform (GeocodeCall (originInput s)) (setIsLoading true s),
        Some (AwaitingOrigin (destinationInput s))).

(** [handleSearch] from one [await] to the next, or to its end. *)
Definition search_resume (task : search_task) (r : resolution) (s : Session)
  : option (Session * option search_task) :=
  match task, r with
  | AwaitingOrigin destinationText, Geocoded originCoords =>
      Some (perform (GeocodeCall destinationText) s,
            Some (AwaitingDestination originCoords))
  | AwaitingDestination (Some o), Geocoded (Some d) =>
      Some (perform (DirectionsCall o d true) (setState (with_endpoints o d) s),
            Some AwaitingDirections)
  | AwaitingDestination _, Geocoded _ =>
      Some (setIsLoading false s, None)
  | AwaitingOrigin _, Failed | AwaitingDestination _, Failed =>
      Some (setIsLoading false s, None)
  | AwaitingDirections, Routed found =>
      Some (setIsLoading false
              (setShowRoutes true (setState (with_routes found) s)),
            None)
  | _, _ => None
  end.

(** The component with the searches in flight. *)
Record App : Type := mkApp {
  session : Session;
  in_flight : list search_task
}.

Definition option_cons {A : Type} (x : option A) (l : list A) : list A :=
  match x with
  | Some a => a :: l
  | None => l
  end.

(** The controls other than search, which [handle] runs as one piece. *)
Definition is_control (e : event) : bool :=
  match e with
  | OnSearch _ _ _ | OnWatchPosition _ => false
  | _ => true
  end.

(** One handler run.  A search advances one [await] at a time, so other
    handlers and other searches run in between.  The watch callback reads
    the session of whichever render registered it, and a click on a route
    button passes the route of whichever render drew the button: both are
    left open here, so every course of the component is a course of this
    relation. *)
Inductive app_step : App -> App -> Prop :=
| step_control (e : event) (s : Session) (tasks : list search_task) :
    is_control e = true -> enabled e s = true ->
    app_step (mkApp s tasks) (mkApp (handle e s) tasks)
| step_watch (rendered : Session) (newLocation : Coordinates R)
    (s : Session) (tasks : list search_task) :
    watching s = true ->
    app_step (mkApp s tasks)
             (mkApp (watchPositionCallback rendered newLocation s) tasks)
| step_select (route : Route) (s : Session) (tasks : list search_task) :
    app_step (mkApp s tasks) (mkApp (handleSelectRoute route s) tasks)
| step_search_begin (s : Session) (tasks : list search_task) :
    isNavigating (state s) = false ->
    app_step (mkApp s tasks)
             (mkApp (fst (search_begin s))
                    (option_cons (snd (search_begin s)) tasks))
| step_search_resume (before after : list search_task) (task : search_task)
    (r : resolution) (s s' : Session) (next : option search_task) :
    search_resume task r s = Some (s', next) ->
    app_step (mkApp s (before ++ task :: after))
             (mkApp s' (before ++ option_cons next after)).

Inductive app_reachable : App -> Prop :=
| reach_mounted (hour : nat) :
    (hour < 24)%nat ->
    app_reachable (mkApp (autoDarkMode hour initialSession) [])
| reach_next (a a' : App) :
    app_reachable a -> app_step a a' -> app_reachable a'.

(** What every handler keeps true of the navigation state. *)
Definition consistent (st : NavigationState) : Prop :=
  currentStepIndex st = 0%nat /\
  (origin st = None <-> destination st = None) /\
  (routes st <> [] -> selectedRoute st <> None).

(** A stop that falls between the two commits of a search: the routes of
    the late answer are stored without the endpoints. *)
Definition stopped_mid_search : Session :=
  mkSession
    (mkNavigationState None None None [sample_route] (Some sample_route)
       true 0 true)
    "" "" true false true
    [Speak (JStr "Siga em frente");
     Speak (JStr "Siga em frente");
     DirectionsCall antimeridian_equator greenwich_equator true;
     GeocodeCall "Ibirapuera"; GeocodeCall "Av. Paulista";
     DirectionsCall antimeridian_equator greenwich_equator true;
     GeocodeCall "Ibirapuera"; GeocodeCall "Av. Paulista"].

(** The positions delivered one after the other, each to the callback of
    the latest render. *)
Definition positions_delivered (locations : list (Coordinates R))
  (s : Session) : Session :=
  fold_left (fun acc newLocation => watchPositionCallback acc newLocation acc)
            locations s.

(** More sample data for the concrete runs. *)
Definition second_route : Route :=
  mkRoute "route-1" (JNum 1500) (JNum 280)
          (JObj [("coordinates", JArr []); ("type", JStr "LineString")])
          [sample_step; sample_step] true.

Definition stepless_route : Route :=
  mkRoute "route-0" (JNum 1200) (JNum 300)
          (JObj [("coordinates", JArr []); ("type", JStr "LineString")])
          [] false.

Definition two_routes_selected : NavigationState :=
  mkNavigationState (Some antimeridian_equator) (Some greenwich_equator)
    None [sample_route; second_route] (Some second_route) false 0 false.

(** Navigating on a route that came without steps. *)
Definition navigating_stepless : Session :=
  handleStartNavigation
    (handleSearch (Some antimeridian_equator) (Some greenwich_equator)
       [stepless_route] addresses_typed).

Definition two_routes_response : jsval :=
  directions_response
    [route_object 1200 300 [step_object "Siga em frente" 1200 300];
     route_object 1500 280 [step_object "Vire" 700 100;
                            step_object "Chegada" 800 180]].

Definition geocode_response : jsval :=
  JObj [("features",
         JArr [JObj [("center", JArr [JNum (-46.6333); JNum (-23.5505)]);
                     ("place_name", JStr "Av. Paulista")];
               JObj [("center", JArr [JNum 0; JNum 0])]])].

(** * Properties *)

(** ** Rational arithmetic *)

Ltac unfold_Qdiv :=
  unfold Qdiv in *;
  repeat match goal with
         | |- context [Qinv (Qmake ?n ?d)] =>
             let v := eval compute in (Qinv (Qmake n d)) in
             change (Qinv (Qmake n d)) with v
         | H : context [Qinv (Qmake ?n ?d)] |- _ =>
             let v := eval compute in (Qinv (Qmake n d)) in
             change (Qinv (Qmake n d)) with v in H
         end.

Lemma Qlt_bool_true (x y : Q) : Qlt_bool x y = true <-> (x < y)%Q.
Proof.
  unfold Qlt_bool. rewrite negb_true_iff. split.
  - intros H. apply Qnot_le_lt. intros Hle.
    apply Qle_bool_iff in Hle. congruence.
  - intros H. destruct (Qle_bool y x) eqn:E; [|reflexivity].
    apply Qle_bool_iff in E. exfalso. apply (Qlt_not_le _ _ H E).
Qed.

Lemma Qlt_bool_false (x y : Q) : Qlt_bool x y = false <-> (y <= x)%Q.
Proof.
  unfold Qlt_bool. rewrite negb_false_iff. apply Qle_bool_iff.
Qed.

Lemma Qfloor_bounds (x : Q) :
  (inject_Z (Qfloor x) <= x /\ x < inject_Z (Qfloor x) + 1)%Q.
Proof.
  split; [apply Qfloor_le|].
  pose proof (Qlt_floor x) as H. rewrite inject_Z_plus in H. exact H.
Qed.

Lemma Qfloor_unique (x : Q) (n : Z) :
  (inject_Z n <= x)%Q -> (x < inject_Z n + 1)%Q -> Qfloor x = n.
Proof.
  intros Hlo Hhi. destruct (Qfloor_bounds x) as [Flo Fhi].
  assert (H1 : (inject_Z n < inject_Z (Qfloor x + 1))%Q).
  { rewrite inject_Z_plus. change (inject_Z 1) with 1%Q. Lqa.lra. }
  assert (H2 : (inject_Z (Qfloor x) < inject_Z (n + 1))%Q).
  { rewrite inject_Z_plus. change (inject_Z 1) with 1%Q. Lqa.lra. }
  rewrite <- Zlt_Qlt in H1, H2. lia.
Qed.

Lemma Qfloor_nonneg (x : Q) : (0 <= x)%Q -> (0 <= Qfloor x)%Z.
Proof.
  intros H. change 0%Z with (Qfloor 0). apply Qfloor_resp_le. exact H.
Qed.

Lemma round_half_even_bounds (x : Q) :
  (inject_Z (round_half_even x) - (1 # 2) <= x /\
   x <= inject_Z (round_half_even x) + (1 # 2))%Q.
Proof.
  unfold round_half_even.
  destruct (Qfloor_bounds x) as [Hlo Hhi].
  destruct (Qcompare_spec (x - inject_Z (Qfloor x)) (1 # 2)) as [E|L|G].
  - destruct (Z.even (Qfloor x));
      [|rewrite inject_Z_plus; change (inject_Z 1) with 1%Q];
      split; Lqa.lra.
  - split; Lqa.lra.
  - rewrite inject_Z_plus. change (inject_Z 1) with 1%Q. split; Lqa.lra.
Qed.

Lemma pow2_pos (e : Z) : (0 < 2 ^ e)%Q.
Proof. apply Qpower_0_lt. reflexivity. Qed.

Lemma pow2_Z (k : Z) : (0 <= k)%Z -> (inject_Z (2 ^ k) == 2 ^ k)%Q.
Proof. intros H. exact (Zpower_Qpower 2 k H). Qed.

(** From 1 on, [binade] is at least -1 and its power of two is below the
    number. *)
Lemma binade_lower (a : Q) :
  (1 <= a)%Q -> (-1 <= binade a)%Z /\ (2 ^ binade a <= a)%Q.
Proof.
  intros Ha. unfold binade.
  destruct a as [n d]. cbn [Qnum Qden].
  assert (Hnd : (Zpos d <= n)%Z).
  { unfold Qle in Ha. simpl in Ha. lia. }
  assert (Hn : (0 < n)%Z) by lia.
  pose proof (Z.log2_le_mono _ _ Hnd) as Hmono.
  set (ln := Z.log2 n) in *. set (ld := Z.log2 (Zpos d)) in *.
  destruct (Qle_bool (2 ^ (ln - ld)) (n # d)) eqn:E.
  - split; [lia|]. apply Qle_bool_iff. exact E.
  - split; [lia|].
    destruct (Z.log2_spec n Hn) as [Hn1 _].
    destruct (Z.log2_spec (Zpos d) (Pos2Z.is_pos d)) as [_ Hd2].
    fold ln in Hn1. fold ld in Hd2.
    assert (Hld : (0 <= ld)%Z) by apply Z.log2_nonneg.
    assert (Hln : (0 <= ln)%Z) by apply Z.log2_nonneg.
    assert (Q1 : (2 ^ ln <= inject_Z n)%Q).
    { rewrite <- (pow2_Z ln Hln). rewrite <- Zle_Qle. exact Hn1. }
    assert (Q2 : (inject_Z (Zpos d) <= 2 ^ (Z.succ ld))%Q).
    { rewrite <- (pow2_Z (Z.succ ld)) by lia. rewrite <- Zle_Qle. lia. }
    replace (ln - ld - 1)%Z with (ln - Z.succ ld)%Z by lia.
    rewrite Qpower_minus by discriminate.
    rewrite (Qmake_Qdiv n d).
    pose proof (pow2_pos ln) as P1. pose proof (pow2_pos (Z.succ ld)) as P2.
    assert (Pd : (0 < inject_Z (Zpos d))%Q).
    { rewrite <- (Zlt_Qlt 0). reflexivity. }
    set (u := (2 ^ ln)%Q) in *. set (v := (2 ^ Z.succ ld)%Q) in *.
    set (N := inject_Z n) in *. set (D := inject_Z (Zpos d)) in *.
    apply Qle_shift_div_l; [exact Pd|].
    unfold Qdiv. rewrite <- Qmult_assoc, (Qmult_comm (/ v)), Qmult_assoc.
    apply Qle_shift_div_r; [exact P2|].
    apply Qle_trans with (N * D)%Q.
    + apply Qmult_le_compat_r; [exact Q1|Lqa.lra].
    + rewrite (Qmult_comm N D), (Qmult_comm N v).
      apply Qmult_le_compat_r; [exact Q2|].
      apply Qle_trans with u; Lqa.lra.
Qed.

(** From 1 on, the nearest double is within a factor [1 +- 2 ^ -53]. *)
Lemma to_double_near (x : Q) :
  (1 <= x)%Q ->
  (x * (1 - half_ulp) <= to_double x /\ to_double x <= x * (1 + half_ulp))%Q.
Proof.
  intros Hx. unfold to_double.
  assert (E0 : Qeq_bool x 0 = false).
  { destruct (Qeq_bool x 0) eqn:E; [|reflexivity].
    apply Qeq_bool_eq in E. exfalso. Lqa.lra. }
  assert (E1 : Qlt_bool x 0 = false) by (apply Qlt_bool_false; Lqa.lra).
  rewrite E0, E1. cbv zeta.
  destruct (binade_lower x Hx) as [He HP].
  rewrite Z.max_l by lia.
  set (e := binade x) in *.
  pose proof (pow2_pos (e - 52)) as Hulp.
  assert (Hsplit : (2 ^ (e - 52) == 2 ^ e * (2 # 9007199254740992))%Q).
  { unfold Z.sub. rewrite Qpower_plus by discriminate.
    apply Qmult_comp; reflexivity. }
  destruct (round_half_even_bounds (x / 2 ^ (e - 52))) as [Nlo Nhi].
  set (n := inject_Z (round_half_even (x / 2 ^ (e - 52)))) in *.
  assert (Hback : (x / 2 ^ (e - 52) * 2 ^ (e - 52) == x)%Q).
  { rewrite Qmult_comm. apply Qmult_div_r. Lqa.lra. }
  set (ulp := (2 ^ (e - 52))%Q) in *.
  assert (L1 : ((n - (1 # 2)) * ulp <= x)%Q).
  { rewrite <- Hback. apply Qmult_le_compat_r; Lqa.lra. }
  assert (L2 : (x <= (n + (1 # 2)) * ulp)%Q).
  { rewrite <- Hback at 1. apply Qmult_le_compat_r; Lqa.lra. }
  set (p := (2 ^ e)%Q) in *. set (km := (n * ulp)%Q).
  assert (L1' : (km - (1 # 2) * ulp <= x)%Q).
  { unfold km. setoid_replace (n * ulp - (1 # 2) * ulp)%Q
      with ((n - (1 # 2)) * ulp)%Q by ring. exact L1. }
  assert (L2' : (x <= km + (1 # 2) * ulp)%Q).
  { unfold km. setoid_replace (n * ulp + (1 # 2) * ulp)%Q
      with ((n + (1 # 2)) * ulp)%Q by ring. exact L2. }
  unfold half_ulp. split; Lqa.lra.
Qed.

(** On a non-negative dividend [% 3600] subtracts the whole hours. *)
Lemma js_rem_3600 (seconds : Q) :
  (0 <= seconds)%Q ->
  js_rem seconds 3600 =
  (seconds - 3600 * inject_Z (Qfloor (seconds / 3600)))%Q.
Proof.
  intros H. unfold js_rem, Q_trunc.
  assert (E : Qlt_bool (seconds / 3600) 0 = false).
  { apply Qlt_bool_false. unfold_Qdiv. Lqa.lra. }
  rewrite E. reflexivity.
Qed.

(** ** Formatting helpers *)

(** C5.  For every non-negative number of seconds, [formatDuration] prints
    the whole hours [h] and the remaining whole minutes [m] (so that
    [3600 h + 60 m <= seconds < 3600 h + 60 m + 60] with [m < 60]): as
    "[h]h [m]min" from one hour on, as "[m] min" below; in particular
    59 gives "0 min", 90 gives "1 min" and 3661 gives "1h 1min". *)
Theorem formatDuration_hours_minutes :
  (forall seconds : Q, (0 <= seconds)%Q ->
     exists h m : Z,
       (0 <= h)%Z /\ (0 <= m < 60)%Z /\
       (3600 * inject_Z h + 60 * inject_Z m <= seconds)%Q /\
       (seconds < 3600 * inject_Z h + 60 * inject_Z m + 60)%Q /\
       ((3600 <= seconds)%Q ->
        formatDuration seconds
        = string_of_Z h ++ "h " ++ string_of_Z m ++ "min") /\
       ((seconds < 3600)%Q ->
        formatDuration seconds = string_of_Z m ++ " min")) /\
  formatDuration 59 = "0 min" /\
  formatDuration 90 = "1 min" /\
  formatDuration 3661 = "1h 1min".
Proof.
  split; [|repeat split; reflexivity].
  intros seconds Hs.
  exists (Qfloor (seconds / 3600)), (Qfloor (js_rem seconds 3600 / 60)).
  destruct (Qfloor_bounds (seconds / 3600)) as [Hlo Hhi].
  destruct (Qfloor_bounds (js_rem seconds 3600 / 60)) as [Mlo Mhi].
  assert (Hh : (0 <= Qfloor (seconds / 3600))%Z).
  { apply Qfloor_nonneg. unfold_Qdiv. Lqa.lra. }
  rewrite (js_rem_3600 seconds Hs) in *.
  set (h := Qfloor (seconds / 3600)) in *.
  set (m := Qfloor ((seconds - 3600 * inject_Z h) / 60)) in *.
  unfold_Qdiv.
  assert (Hm : (0 <= m < 60)%Z).
  { split.
    - apply Qfloor_nonneg. unfold_Qdiv. Lqa.lra.
    - rewrite Zlt_Qlt. change (inject_Z 60) with 60%Q. Lqa.lra. }
  repeat split; try lia; try Lqa.lra.
  - intros Hge. unfold formatDuration, Math_floor.
    rewrite (js_rem_3600 seconds Hs).
    change (Qfloor (seconds / 3600)) with h.
    change (Qfloor ((seconds - 3600 * inject_Z h) / 60)) with m.
    assert (E : (0 <? h)%Z = true).
    { apply Z.ltb_lt.
      assert (H1 : (inject_Z 0 < inject_Z (h + 1))%Q).
      { rewrite inject_Z_plus. change (inject_Z 0) with 0%Q.
        change (inject_Z 1) with 1%Q. Lqa.lra. }
      rewrite <- Zlt_Qlt in H1. 
      assert (h <> 0)%Z; [|lia].
      intros E0. rewrite E0 in Hhi. change (inject_Z 0) with 0%Q in Hhi.
      Lqa.lra. }
    rewrite E. reflexivity.
  - intros Hlt. unfold formatDuration, Math_floor.
    rewrite (js_rem_3600 seconds Hs).
    change (Qfloor (seconds / 3600)) with h.
    change (Qfloor ((seconds - 3600 * inject_Z h) / 60)) with m.
    assert (E : (0 <? h)%Z = false).
    { apply Z.ltb_ge.
      assert (H1 : (inject_Z h < inject_Z 1)%Q).
      { change (inject_Z 1) with 1%Q. Lqa.lra. }
      rewrite <- Zlt_Qlt in H1. lia. }
    rewrite E. reflexivity.
Qed.

Lemma formatDuration_hours_minutes_witness :
  (0 <= 3661)%Q /\
  exists h m : Z,
    (0 <= h)%Z /\ (0 <= m < 60)%Z /\
    (3600 * inject_Z h + 60 * inject_Z m <= 3661)%Q /\
    (3661 < 3600 * inject_Z h + 60 * inject_Z m + 60)%Q /\
    ((3600 <= 3661)%Q ->
     formatDuration 3661 = string_of_Z h ++ "h " ++ string_of_Z m ++ "min") /\
    ((3661 < 3600)%Q -> formatDuration 3661 = string_of_Z m ++ " min").
Proof.
  assert (H : (0 <= 3661)%Q) by (unfold Qle; simpl; lia).
  split; [exact H|].
  exact (proj1 formatDuration_hours_minutes 3661%Q H).
Defined.

(** C6.  For every non-negative number of meters, [formatDistance] prints,
    below 1000, the nearest integer [n] followed by " m", and from 1000 on
    the kilometers rounded to one decimal followed by " km": the kilometers
    [km] are the double quotient of the meters by 1000, within a factor
    [1 +- 2 ^ -53] of the exact quotient, and the [t] tenths printed as
    "[t/10].[t mod 10]" are the nearest to [km], the upper ones on a tie; in
    particular 999 gives "999 m", 1000 gives "1.0 km" and 12345 gives
    "12.3 km". *)
Theorem formatDistance_units :
  (forall meters : Q, (0 <= meters)%Q ->
     ((meters < 1000)%Q ->
      exists n : Z,
        formatDistance meters = string_of_Z n ++ " m" /\
        (inject_Z n - (1 # 2) <= meters)%Q /\
        (meters < inject_Z n + (1 # 2))%Q) /\
     ((1000 <= meters)%Q ->
      exists (km : Q) (t : Z),
        formatDistance meters
        = (string_of_Z (t / 10) ++ "." ++ string_of_Z (t mod 10)) ++ " km" /\
        km = to_double (meters / 1000) /\
        (meters / 1000 * (1 - half_ulp) <= km)%Q /\
        (km <= meters / 1000 * (1 + half_ulp))%Q /\
        (inject_Z t - (1 # 2) <= 10 * km)%Q /\
        (10 * km < inject_Z t + (1 # 2))%Q)) /\
  formatDistance 999 = "999 m" /\
  formatDistance 1000 = "1.0 km" /\
  formatDistance 12345 = "12.3 km".
Proof.
  split; [|repeat split; reflexivity].
  intros meters Hm. split.
  - intros Hlt. exists (Math_round meters). unfold formatDistance.
    apply Qlt_bool_true in Hlt. rewrite Hlt.
    split; [reflexivity|]. unfold Math_round.
    destruct (Qfloor_bounds (meters + (1 # 2))) as [Hlo Hhi].
    split; Lqa.lra.
  - intros Hge. unfold formatDistance.
    apply Qlt_bool_false in Hge as E. rewrite E.
    assert (Hq : (1 <= meters / 1000)%Q) by (unfold_Qdiv; Lqa.lra).
    destruct (to_double_near _ Hq) as [Klo Khi].
    set (km := to_double (meters / 1000)) in *.
    assert (Hpos : (0 < km)%Q) by (unfold half_ulp in Klo; Lqa.lra).
    exists km, (Qfloor (10 * km + (1 # 2))).
    unfold toFixed1.
    assert (E0 : Qlt_bool km 0 = false) by (apply Qlt_bool_false; Lqa.lra).
    rewrite E0. cbn [append].
    destruct (Qfloor_bounds (10 * km + (1 # 2))) as [Hlo Hhi].
    repeat split; try assumption; Lqa.lra.
Qed.

Lemma formatDistance_units_witness :
  (0 <= 1150)%Q /\ (1000 <= 1150)%Q /\
  formatDistance 1150 = "1.1 km" /\
  exists (km : Q) (t : Z),
    formatDistance 1150
    = (string_of_Z (t / 10) ++ "." ++ string_of_Z (t mod 10)) ++ " km" /\
    km = to_double (1150 / 1000) /\
    (1150 / 1000 * (1 - half_ulp) <= km)%Q /\
    (km <= 1150 / 1000 * (1 + half_ulp))%Q /\
    (inject_Z t - (1 # 2) <= 10 * km)%Q /\
    (10 * km < inject_Z t + (1 # 2))%Q.
Proof.
  assert (H0 : (0 <= 1150)%Q) by (unfold Qle; simpl; lia).
  assert (H1 : (1000 <= 1150)%Q) by (unfold Qle; simpl; lia).
  split; [exact H0|]. split; [exact H1|]. split; [reflexivity|].
  exact (proj2 (proj1 formatDistance_units 1150%Q H0) H1).
Defined.

(** C10.  For every number of meters from 999.5 up to, but not including,
    1000, [formatDistance] returns "1000 m": the branch for distances under
    a kilometer rounds to the nearest integer and so can print 1000. *)
Theorem formatDistance_just_below_1000 (meters : Q) :
  (999.5 <= meters)%Q -> (meters < 1000)%Q ->
  formatDistance meters = "1000 m".
Proof.
  intros Hlo Hhi. unfold formatDistance.
  apply Qlt_bool_true in Hhi as Hb. rewrite Hb.
  unfold Math_round.
  rewrite (Qfloor_unique _ 1000); [reflexivity| |];
    change (inject_Z 1000) with 1000%Q; Lqa.lra.
Qed.

Lemma formatDistance_just_below_1000_witness :
  (999.5 <= 999.75)%Q /\ (999.75 < 1000)%Q /\
  formatDistance 999.75 = "1000 m".
Proof.
  assert (H0 : (999.5 <= 999.75)%Q) by (unfold Qle; simpl; lia).
  assert (H1 : (999.75 < 1000)%Q) by (unfold Qlt; simpl; lia).
  split; [exact H0|]. split; [exact H1|].
  exact (formatDistance_just_below_1000 999.75%Q H0 H1).
Defined.

(** ** Geometry *)

Lemma haversine_a_sym (a b : Coordinates R) :
  haversine_a a b = haversine_a b a.
Proof.
  unfold haversine_a. cbv zeta.
  replace ((lat b - lat a) * PI / 180 / 2)%R
    with (- ((lat a - lat b) * PI / 180 / 2))%R by Lra.lra.
  replace ((lng b - lng a) * PI / 180 / 2)%R
    with (- ((lng a - lng b) * PI / 180 / 2))%R by Lra.lra.
  rewrite !sin_neg. ring.
Qed.

Lemma haversine_a_same (a : Coordinates R) : haversine_a a a = 0%R.
Proof.
  unfold haversine_a. cbv zeta.
  replace ((lat a - lat a) * PI / 180 / 2)%R with 0%R by Lra.lra.
  replace ((lng a - lng a) * PI / 180 / 2)%R with 0%R by Lra.lra.
  rewrite sin_0. ring.
Qed.

Lemma Math_atan2_0_1 : Math_atan2 0 1 = 0%R.
Proof.
  unfold Math_atan2. destruct (Rlt_dec 0 1) as [_|H]; [|exfalso; Lra.lra].
  replace (0 / 1)%R with 0%R by Lra.lra. apply atan_0.
Qed.

Lemma calculateDistance_same (a : Coordinates R) :
  calculateDistance a a = 0%R.
Proof.
  unfold calculateDistance. cbv zeta. rewrite haversine_a_same.
  rewrite sqrt_0. replace (1 - 0)%R with 1%R by Lra.lra. rewrite sqrt_1.
  rewrite Math_atan2_0_1. ring.
Qed.

(** C7.  For all coordinates [a] and [b], the distance from [a] to [b]
    equals the distance from [b] to [a]. *)
Theorem calculateDistance_symmetric (a b : Coordinates R) :
  calculateDistance a b = calculateDistance b a.
Proof.
  unfold calculateDistance. cbv zeta.
  rewrite (haversine_a_sym a b). reflexivity.
Qed.

(** C8.  For every coordinate [a], the distance from [a] to itself is 0. *)
Theorem calculateDistance_self_zero (a : Coordinates R) :
  calculateDistance a a = 0%R.
Proof. apply calculateDistance_same. Qed.

(** ** Gateway client *)

Lemma get_readable (v : jsval) (k : string) (x : jsval) :
  get v k = Normal x -> forall k', exists y, get v k' = Normal y.
Proof.
  intros H k'. destruct v; simpl in *; try discriminate; eauto.
  - destruct (String.eqb k' "length"); eauto.
  - destruct (String.eqb k' "length"); eauto.
Qed.

Section MapFrom.
Context {B : Type} (callback : jsval -> nat -> completion B).

Lemma map_from_Throw (items : list jsval) :
  forall index k item,
    nth_error items k = Some item ->
    callback item (index + k) = Throw ->
    map_from callback index items = Throw.
Proof.
  induction items as [|x rest IH]; intros index k item Hk Hc.
  - destruct k; discriminate.
  - destruct k as [|k]; simpl in Hk.
    + injection Hk as ->. rewrite Nat.add_0_r in Hc.
      simpl. rewrite Hc. reflexivity.
    + simpl. destruct (callback x index); [|reflexivity]. simpl.
      rewrite (IH (S index) k item Hk); [reflexivity|].
      rewrite <- Hc. f_equal. lia.
Qed.

Lemma map_from_Normal (P : nat -> jsval -> B -> Prop)
  (items : list jsval) :
  forall index,
    (forall k item, nth_error items k = Some item ->
       exists b, callback item (index + k) = Normal b /\ P (index + k)%nat item b) ->
    exists bs,
      map_from callback index items = Normal bs /\
      List.length bs = List.length items /\
      forall k item, nth_error items k = Some item ->
        exists b, nth_error bs k = Some b /\ P (index + k)%nat item b.
Proof.
  induction items as [|x rest IH]; intros index H.
  - exists []. repeat split; auto. intros [|k] item Hk; discriminate.
  - destruct (H 0%nat x eq_refl) as (b & Hb & Pb).
    rewrite Nat.add_0_r in Hb, Pb.
    destruct (IH (S index)) as (bs & Hbs & Hlen & Hnth).
    { intros k item Hk. destruct (H (S k) item Hk) as (b' & Hb' & Pb').
      exists b'. replace (S index + k)%nat with (index + S k)%nat by lia.
      auto. }
    exists (b :: bs). simpl. rewrite Hb. simpl. rewrite Hbs. simpl.
    repeat split; [congruence|].
    intros [|k] item Hk; simpl in Hk.
    + injection Hk as <-. exists b. rewrite Nat.add_0_r. auto.
    + destruct (Hnth k item Hk) as (b' & Hb' & Pb').
      exists b'. replace (index + S k)%nat with (S index + k)%nat by lia.
      auto.
Qed.
End MapFrom.

Section GatewayFacts.
Variable ToNumber_text : jsval -> option Q.

Lemma mapStep_Normal (step : jsval) (i : nat) :
  has_maneuver step = true -> exists b, mapStep step i = Normal b.
Proof.
  unfold has_maneuver. destruct (get step "maneuver") as [m|] eqn:Hm;
    [|discriminate].
  intros Hn. apply negb_true_iff in Hn.
  unfold mapStep. rewrite Hm. simpl.
  destruct (get_readable _ _ _ Hm "distance") as (d & Hd).
  destruct (get_readable _ _ _ Hm "duration") as (t & Ht).
  assert (Hr : forall k, exists y, get m k = Normal y).
  { intros k. destruct m; simpl in *; try discriminate; eauto;
      destruct (String.eqb k "length"); eauto. }
  destruct (Hr "instruction") as (i1 & Hi1).
  destruct (Hr "type") as (i2 & Hi2).
  destruct (Hr "modifier") as (i3 & Hi3).
  rewrite Hi1. simpl. rewrite Hd. simpl. rewrite Ht. simpl.
  rewrite Hi2. simpl. rewrite Hi3. simpl. eauto.
Qed.

Lemma first_leg_steps_Some (route : jsval) (ss : list jsval) :
  first_leg_steps route = Some ss ->
  exists legs leg0,
    get route "legs" = Normal legs /\
    get_index legs 0 = Normal leg0 /\
    get leg0 "steps" = Normal (JArr ss).
Proof.
  unfold first_leg_steps.
  destruct (get route "legs") as [legs|] eqn:Hlegs; [|discriminate].
  destruct (get_index legs 0) as [leg0|] eqn:Hleg0; [|discriminate].
  destruct (get leg0 "steps") as [st|] eqn:Hst; [|discriminate].
  destruct st; try discriminate.
  intros H. injection H as <-. exists legs, leg0. auto.
Qed.

Lemma mapRoute_Normal (route : jsval) (index : nat) (ss : list jsval) :
  first_leg_steps route = Some ss -> forallb has_maneuver ss = true ->
  exists r,
    mapRoute route index = Normal r /\
    route_id r = "route-" ++ index_text index /\
    isAlternative r = (0 <? index)%nat /\
    List.length (steps r) = List.length ss.
Proof.
  intros Hfirst Hall.
  destruct (first_leg_steps_Some _ _ Hfirst)
    as (legs & leg0 & Hlegs & Hleg0 & Hss).
  unfold mapRoute.
  destruct (get_readable _ _ _ Hlegs "distance") as (d & Hd).
  destruct (get_readable _ _ _ Hlegs "duration") as (t & Ht).
  destruct (get_readable _ _ _ Hlegs "geometry") as (g & Hg).
  rewrite Hd. simpl. rewrite Ht. simpl. rewrite Hg. simpl.
  rewrite Hlegs. simpl. rewrite Hleg0. simpl. rewrite Hss. simpl.
  destruct (map_from_Normal mapStep (fun _ _ _ => True) ss 0)
    as (bs & Hbs & Hlen & _).
  { intros k item Hk. rewrite forallb_forall in Hall.
    destruct (mapStep_Normal item (0 + k) (Hall item (nth_error_In _ _ Hk)))
      as (b & Hb).
    exists b. auto. }
  rewrite Hbs. simpl. eexists. split; [reflexivity|]. simpl. auto.
Qed.

Lemma mapRoute_Throw (route : jsval) (index : nat) :
  first_leg_steps route = None ->
  mapRoute route index = Throw.
Proof.
  unfold first_leg_steps, mapRoute. intros H.
  destruct (get route "distance") as [d|]; [simpl|reflexivity].
  destruct (get route "duration") as [t|]; [simpl|reflexivity].
  destruct (get route "geometry") as [g|]; [simpl|reflexivity].
  destruct (get route "legs") as [legs|]; [simpl|reflexivity].
  destruct (get_index legs 0) as [leg0|]; [simpl|reflexivity].
  destruct (get leg0 "steps") as [st|]; [simpl|reflexivity].
  destruct st; try reflexivity. discriminate.
Qed.

Lemma directions_body_array (data : jsval) (rs : list jsval) :
  get data "routes" = Normal (JArr rs) ->
  directions_body ToNumber_text data =
  match rs with
  | [] => Normal []
  | _ :: _ => map_from mapRoute 0 rs
  end.
Proof.
  intros H. unfold directions_body. rewrite H. simpl.
  destruct rs as [|r rest]; reflexivity.
Qed.
End GatewayFacts.

(** C9.  For every directions response whose [routes] array holds a route
    without a first leg or without a [steps] array, [getDirections] returns
    the empty sequence, whatever the other routes are and wherever the
    malformed one stands. *)
Theorem getDirections_malformed_route_discards_all
  (ToNumber_text : jsval -> option Q)
  (data : jsval) (rs : list jsval) (k : nat) (route : jsval) :
  get data "routes" = Normal (JArr rs) ->
  nth_error rs k = Some route ->
  first_leg_steps route = None ->
  getDirections ToNumber_text (Parsed data) = [].
Proof.
  intros Hdata Hk Hbad. unfold getDirections.
  rewrite (directions_body_array ToNumber_text data rs Hdata).
  destruct rs as [|r rest]; [reflexivity|].
  rewrite (map_from_Throw mapRoute (r :: rest) 0 k route Hk);
    [reflexivity|].
  apply mapRoute_Throw. exact Hbad.
Qed.

Lemma getDirections_malformed_route_discards_all_witness :
  let rs := [route_object 1200 300 [step_object "Siga em frente" 1200 300];
             legless_route] in
  nth_error rs 1 = Some legless_route /\
  first_leg_steps legless_route = None /\
  well_formed_route (route_object 1200 300
                       [step_object "Siga em frente" 1200 300]) = true /\
  getDirections no_text_number (Parsed (directions_response rs)) = [].
Proof.
  intros rs. split; [reflexivity|]. split; [reflexivity|].
  split; [reflexivity|].
  apply (getDirections_malformed_route_discards_all no_text_number
           (directions_response rs) rs 1 legless_route);
    reflexivity.
Defined.

(** C2 as stated fails: a response with two routes, the second without
    legs, yields no route at all, and a route whose first leg has an empty
    [steps] array is returned with no steps. *)
Lemma getDirections_not_always_N_nonempty :
  getDirections no_text_number
    (Parsed (directions_response
       [route_object 1200 300 [step_object "Siga em frente" 1200 300];
        legless_route])) = []
  /\
  getDirections no_text_number
    (Parsed (directions_response [route_object 1200 300 []]))
  = [mkRoute "route-0" (JNum 1200) (JNum 300)
       (JObj [("coordinates", JArr []); ("type", JStr "LineString")])
       [] false].
Proof. split; reflexivity. Qed.

(** C2, amended.  A transport or parse error and an empty [routes] array
    give the empty sequence.  For every directions response whose [routes]
    array holds N routes, each with a first leg, a [steps] array in it and a
    maneuver on every step, [getDirections] returns exactly N routes in
    order: the one at index i has id "route-i", [isAlternative] false for
    i = 0 and true afterwards, and as many steps as the [steps] array of
    the response has (so a non-empty list exactly when that array is
    non-empty). *)
Theorem getDirections_well_formed_routes
  (ToNumber_text : jsval -> option Q) :
  getDirections ToNumber_text TransportError = [] /\
  getDirections ToNumber_text ParseError = [] /\
  (forall data, get data "routes" = Normal (JArr []) ->
     getDirections ToNumber_text (Parsed data) = []) /\
  (forall data rs,
     get data "routes" = Normal (JArr rs) ->
     forallb well_formed_route rs = true ->
     List.length (getDirections ToNumber_text (Parsed data))
     = List.length rs /\
     forall i route, nth_error rs i = Some route ->
       exists r ss,
         nth_error (getDirections ToNumber_text (Parsed data)) i = Some r /\
         route_id r = "route-" ++ index_text i /\
         isAlternative r = (0 <? i)%nat /\
         first_leg_steps route = Some ss /\
         List.length (steps r) = List.length ss).
Proof.
  split; [reflexivity|]. split; [reflexivity|]. split.
  - intros data H. unfold getDirections.
    rewrite (directions_body_array ToNumber_text data [] H). reflexivity.
  - intros data rs Hdata Hwf. unfold getDirections.
    rewrite (directions_body_array ToNumber_text data rs Hdata).
    destruct (map_from_Normal mapRoute
                (fun i route r =>
                   exists ss,
                     route_id r = "route-" ++ index_text i /\
                     isAlternative r = (0 <? i)%nat /\
                     first_leg_steps route = Some ss /\
                     List.length (steps r) = List.length ss) rs 0)
      as (bs & Hbs & Hlen & Hnth).
    { intros k route Hk. rewrite forallb_forall in Hwf.
      pose proof (Hwf route (nth_error_In _ _ Hk)) as Hr.
      unfold well_formed_route in Hr.
      destruct (first_leg_steps route) as [ss|] eqn:Hfirst; [|discriminate].
      destruct (mapRoute_Normal route (0 + k) ss Hfirst Hr)
        as (r & Hmap & Hid & Halt & Hsteps).
      exists r. split; [exact Hmap|]. exists ss. auto. }
    destruct rs as [|r0 rest].
    + split; [reflexivity|]. intros [|i] route Hi; discriminate.
    + rewrite Hbs. split; [exact Hlen|].
      intros i route Hi. destruct (Hnth i route Hi) as (r & Hr & ss & H).
      exists r, ss. simpl in H. tauto.
Qed.

Lemma getDirections_well_formed_routes_witness :
  let rs := [route_object 1200 300 [step_object "Siga em frente" 1200 300];
             route_object 1500 280 [step_object "Vire" 700 100;
                                    step_object "Chegada" 800 180]] in
  forallb well_formed_route rs = true /\
  List.length (getDirections no_text_number (Parsed (directions_response rs)))
  = 2%nat /\
  exists r ss,
    nth_error (getDirections no_text_number (Parsed (directions_response rs)))
      1 = Some r /\
    route_id r = "route-1" /\
    isAlternative r = true /\
    first_leg_steps (route_object 1500 280 [step_object "Vire" 700 100;
                                            step_object "Chegada" 800 180])
    = Some ss /\
    List.length (steps r) = List.length ss.
Proof.
  intros rs.
  assert (Hwf : forallb well_formed_route rs = true) by reflexivity.
  split; [exact Hwf|].
  destruct (proj2 (proj2 (proj2
              (getDirections_well_formed_routes no_text_number)))
              (directions_response rs) rs eq_refl Hwf) as [Hlen Hnth].
  split; [exact Hlen|].
  exact (Hnth 1%nat _ eq_refl).
Defined.

(** ** Session controller *)

Lemma navigating_at_night_reachable : reachable navigating_at_night.
Proof.
  exists 20%nat, night_drive. split; [lia|reflexivity].
Qed.

(** C1 as stated fails: after mounting in the evening, a search and the
    start of navigation, the stop action leaves the dark theme on, so the
    state is not the one the session started with. *)
Lemma stop_keeps_theme_not_initial :
  reachable navigating_at_night /\
  idle navigating_at_night = false /\
  enabled OnStopNavigation navigating_at_night = true /\
  isDarkMode (state (handleStopNavigation navigating_at_night)) = true /\
  isDarkMode initialState = false /\
  state (handleStopNavigation navigating_at_night) <> initialState.
Proof.
  split; [exact navigating_at_night_reachable|].
  do 4 (split; [reflexivity|]).
  intros H. apply (f_equal isDarkMode) in H. discriminate H.
Qed.

(** C1, amended.  For every session state, [handleStopNavigation] clears
    origin, destination, routes and selected route, sets the navigating flag
    to false and the step index to 0, and leaves the last known location and
    the theme flag as they were; the state it yields is the initial one
    exactly when no location is known and the theme is light; applying the
    stop twice gives the same session as applying it once. *)
Theorem handleStopNavigation_reset (s : Session) :
  let s' := handleStopNavigation s in
  origin (state s') = None /\
  destination (state s') = None /\
  routes (state s') = [] /\
  selectedRoute (state s') = None /\
  isNavigating (state s') = false /\
  currentStepIndex (state s') = 0%nat /\
  currentLocation (state s') = currentLocation (state s) /\
  isDarkMode (state s') = isDarkMode (state s) /\
  (state s' = initialState <->
   currentLocation (state s) = None /\ isDarkMode (state s) = false) /\
  handleStopNavigation s' = s'.
Proof.
  cbv zeta. do 8 (split; [reflexivity|]). split; [split|reflexivity].
  - intros H. split.
    + apply (f_equal currentLocation) in H. exact H.
    + apply (f_equal isDarkMode) in H. exact H.
  - intros [Hl Hd]. unfold handleStopNavigation, stopped. simpl.
    rewrite Hl, Hd. reflexivity.
Qed.

(** C3.  For every search in which at least one of the two geocode calls
    resolves to nothing, the navigation state is left as it was (origin,
    destination, routes and selected route included), the route panel is not
    opened, no directions request is made, and an idle session stays idle. *)
Theorem handleSearch_geocode_absent
  (originCoords destCoords : option (Coordinates R)) (found : list Route)
  (s : Session) :
  originCoords = None \/ destCoords = None ->
  let s' := handleSearch originCoords destCoords found s in
  state s' = state s /\
  showRoutes s' = showRoutes s /\
  (forall from to alternatives,
     In (DirectionsCall from to alternatives) (effects s') ->
     In (DirectionsCall from to alternatives) (effects s)) /\
  (idle s = true -> idle s' = true).
Proof.
  intros H. cbv zeta. unfold handleSearch.
  destruct (String.eqb (originInput s) "" || String.eqb (destinationInput s) "")%bool.
  - repeat split; auto.
  - assert (E : match originCoords, destCoords with
                | Some _, Some _ => False
                | _, _ => True
                end).
    { destruct H as [-> | ->]; [exact I|]. destruct originCoords; exact I. }
    destruct originCoords as [o|]; destruct destCoords as [d|];
      try contradiction; simpl;
      (repeat split; auto;
       intros from to alternatives [Hin | [Hin | Hin]];
       try discriminate; exact Hin).
Qed.

Lemma handleSearch_geocode_absent_witness :
  idle addresses_typed = true /\
  state (handleSearch None (Some greenwich_equator) [sample_route]
           addresses_typed)
  = state addresses_typed /\
  idle (handleSearch None (Some greenwich_equator) [sample_route]
          addresses_typed) = true.
Proof.
  assert (Hidle : idle addresses_typed = true) by reflexivity.
  destruct (handleSearch_geocode_absent None (Some greenwich_equator)
              [sample_route] addresses_typed (or_introl eq_refl))
    as (Hstate & _ & _ & Hkeep).
  split; [exact Hidle|]. split; [exact Hstate|]. exact (Hkeep Hidle).
Defined.

Lemma Math_atan2_1_0 : Math_atan2 1 0 = (PI / 2)%R.
Proof.
  unfold Math_atan2.
  destruct (Rlt_dec 0 0) as [H|_]; [exfalso; Lra.lra|].
  destruct (Rlt_dec 0 1) as [_|H]; [reflexivity|exfalso; Lra.lra].
Qed.

(** Half the equator: the two sample points are far apart. *)
Lemma calculateDistance_half_equator :
  calculateDistance antimeridian_equator greenwich_equator
  = (earth_radius * PI)%R.
Proof.
  unfold calculateDistance, haversine_a, antimeridian_equator,
    greenwich_equator. cbn [lat lng]. cbv zeta.
  replace ((0 - 0) * PI / 180 / 2)%R with 0%R by Lra.lra.
  replace ((0 - 180) * PI / 180 / 2)%R with (- (PI / 2))%R by Lra.lra.
  replace (0 * PI / 180)%R with 0%R by Lra.lra.
  rewrite sin_neg, sin_PI2, sin_0, cos_0.
  replace (0 * 0 + 1 * 1 * - (1) * - (1))%R with 1%R by Lra.lra.
  replace (1 - 1)%R with 0%R by Lra.lra.
  rewrite sqrt_1, sqrt_0, Math_atan2_1_0. unfold earth_radius. Lra.lra.
Qed.

Lemma calculateDistance_half_equator_far :
  (50 <= calculateDistance antimeridian_equator greenwich_equator)%R.
Proof.
  rewrite calculateDistance_half_equator. unfold earth_radius.
  pose proof PI2_1. Lra.lra.
Qed.

(** C4.  While navigating, with origin, destination and a current step
    known to the watch callback, a position whose computed distance to the
    destination is below 50 meters leaves the session as the stop action
    leaves it (navigating flag, step index, routes, selected route, origin,
    destination and both input texts cleared, the route panel closed); a
    position at 50 meters or more only records the location and the session
    keeps navigating. *)
Theorem arrival_resets_like_stop
  (rendered s : Session) (newLocation o d : Coordinates R)
  (route : Route) (step : RouteStep) :
  origin (state rendered) = Some o ->
  destination (state rendered) = Some d ->
  selectedRoute (state rendered) = Some route ->
  nth_error (steps route) (currentStepIndex (state rendered)) = Some step ->
  isNavigating (state s) = true ->
  let s' := watchPositionCallback rendered newLocation s in
  let located := setState (with_currentLocation newLocation) s in
  ((calculateDistance newLocation d < 50)%R ->
   state s' = state (handleStopNavigation located) /\
   originInput s' = originInput (handleStopNavigation located) /\
   destinationInput s' = destinationInput (handleStopNavigation located) /\
   showRoutes s' = showRoutes (handleStopNavigation located) /\
   isNavigating (state s') = false /\
   currentStepIndex (state s') = 0%nat /\
   routes (state s') = [] /\
   selectedRoute (state s') = None /\
   origin (state s') = None /\
   destination (state s') = None /\
   originInput s' = "" /\
   destinationInput s' = "") /\
  ((50 <= calculateDistance newLocation d)%R ->
   s' = located /\ isNavigating (state s') = true).
Proof.
  intros Ho Hd Hr Hstep Hnav. cbv zeta. unfold watchPositionCallback.
  rewrite Ho, Hd, Hr, Hstep.
  destruct (Rlt_dec (calculateDistance newLocation d) 50) as [Hlt|Hge].
  - split; [|intros H; exfalso; Lra.lra].
    intros _. destruct (isVoiceEnabled rendered); repeat split.
  - split; [intros H; contradiction|].
    intros _. split; [reflexivity|exact Hnav].
Qed.

Lemma arrival_resets_like_stop_witness :
  (calculateDistance greenwich_equator greenwich_equator < 50)%R /\
  state (watchPositionCallback navigating_at_night greenwich_equator
           navigating_at_night)
  = state (handleStopNavigation
             (setState (with_currentLocation greenwich_equator)
                       navigating_at_night)) /\
  (50 <= calculateDistance antimeridian_equator greenwich_equator)%R /\
  isNavigating
    (state (watchPositionCallback navigating_at_night antimeridian_equator
              navigating_at_night)) = true.
Proof.
  assert (Hnear :
    (calculateDistance greenwich_equator greenwich_equator < 50)%R).
  { rewrite calculateDistance_same. Lra.lra. }
  pose proof calculateDistance_half_equator_far as Hfar.
  split; [exact Hnear|]. split.
  - exact (proj1 (proj1 (arrival_resets_like_stop
             navigating_at_night navigating_at_night greenwich_equator
             antimeridian_equator greenwich_equator sample_route sample_step
             eq_refl eq_refl eq_refl eq_refl eq_refl) Hnear)).
  - split; [exact Hfar|].
    exact (proj2 (proj2 (arrival_resets_like_stop
             navigating_at_night navigating_at_night antimeridian_equator
             antimeridian_equator greenwich_equator sample_route sample_step
             eq_refl eq_refl eq_refl eq_refl eq_refl) Hfar)).
Defined.

(** X6.  [geocodeAddress] returns absent for a failed request, for a body
    that cannot be parsed, for a body without features and for an empty
    feature list. *)
Lemma geocodeAddress_absent (ToNumber_text : jsval -> option Q) :
  geocodeAddress ToNumber_text TransportError = None /\
  geocodeAddress ToNumber_text ParseError = None /\
  (forall data, get data "features" = Normal (JArr []) ->
     geocodeAddress ToNumber_text (Parsed data) = None) /\
  (forall data, get data "features" = Normal JUndefined ->
     geocodeAddress ToNumber_text (Parsed data) = None).
Proof.
  repeat split; intros data H; unfold geocodeAddress, geocode_body;
    rewrite H; reflexivity.
Qed.

(** * Further properties *)

(** ** Gateway client: every response *)

Lemma string_of_Z_inj (n m : Z) : string_of_Z n = string_of_Z m -> n = m.
Proof.
  unfold string_of_Z. intros H.
  assert (Hnil : forall z, Z.to_int z <> Decimal.Pos Decimal.Nil /\
                           Z.to_int z <> Decimal.Neg Decimal.Nil).
  { intros z. split; intros E; pose proof (f_equal Z.of_int E) as E0;
      rewrite DecimalZ.of_to in E0; simpl in E0; subst z; discriminate E. }
  apply DecimalZ.to_int_inj.
  destruct (Hnil n) as [Hn1 Hn2]. destruct (Hnil m) as [Hm1 Hm2].
  pose proof (NilZero.isi _ Hn1 Hn2) as En.
  pose proof (NilZero.isi _ Hm1 Hm2) as Em.
  rewrite H in En. congruence.
Qed.

Lemma index_text_inj (i j : nat) : index_text i = index_text j -> i = j.
Proof.
  unfold index_text. intros H. apply string_of_Z_inj in H. lia.
Qed.

Section MapFromInversion.
Context {B : Type} (callback : jsval -> nat -> completion B).

Lemma map_from_inv (items : list jsval) :
  forall index bs,
    map_from callback index items = Normal bs ->
    List.length bs = List.length items /\
    forall k b, nth_error bs k = Some b ->
      exists item,
        nth_error items k = Some item /\
        callback item (index + k) = Normal b.
Proof.
  induction items as [|x rest IH]; intros index bs H; simpl in H.
  - injection H as <-. split; [reflexivity|].
    intros [|k] b Hk; discriminate.
  - destruct (callback x index) as [b0|] eqn:Hb0; [|discriminate].
    simpl in H.
    destruct (map_from callback (S index) rest) as [bs0|] eqn:Hrest;
      [|discriminate].
    simpl in H. injection H as <-.
    destruct (IH (S index) bs0 Hrest) as [Hlen Hnth].
    split; [simpl; congruence|].
    intros [|k] b Hk; simpl in Hk.
    + injection Hk as <-. exists x. rewrite Nat.add_0_r. auto.
    + destruct (Hnth k b Hk) as (item & Hitem & Hcall).
      exists item. split; [exact Hitem|].
      replace (index + S k)%nat with (S index + k)%nat by lia. exact Hcall.
Qed.
End MapFromInversion.

(** What a successful [mapRoute] call has read. *)
Lemma mapRoute_inv (route : jsval) (index : nat) (r : Route) :
  mapRoute route index = Normal r ->
  route_id r = "route-" ++ index_text index /\
  isAlternative r = (0 <? index)%nat /\
  get route "distance" = Normal (route_distance r) /\
  get route "duration" = Normal (route_duration r) /\
  get route "geometry" = Normal (geometry r) /\
  exists ss,
    first_leg_steps route = Some ss /\
    map_from mapStep 0 ss = Normal (steps r).
Proof.
  unfold mapRoute, first_leg_steps.
  destruct (get route "distance") as [d|]; [simpl|discriminate].
  destruct (get route "duration") as [t|]; [simpl|discriminate].
  destruct (get route "geometry") as [g|]; [simpl|discriminate].
  destruct (get route "legs") as [legs|]; [simpl|discriminate].
  destruct (get_index legs 0) as [leg0|]; [simpl|discriminate].
  destruct (get leg0 "steps") as [st|]; [simpl|discriminate].
  destruct st as [| | | | |ss|]; simpl; try discriminate.
  destruct (map_from mapStep 0 ss) as [mapped|] eqn:Hm; [simpl|discriminate].
  intros H. injection H as <-. simpl.
  repeat split; auto. exists ss. auto.
Qed.

(** What a successful [mapStep] call has read. *)
Lemma mapStep_inv (step : jsval) (j : nat) (st : RouteStep) :
  mapStep step j = Normal st ->
  get step "distance" = Normal (step_distance st) /\
  get step "duration" = Normal (step_duration st) /\
  exists m,
    get step "maneuver" = Normal m /\
    get m "instruction" = Normal (instruction st) /\
    get m "type" = Normal (maneuver_type st) /\
    get m "modifier" = Normal (maneuver_modifier st).
Proof.
  unfold mapStep.
  destruct (get step "maneuver") as [m|]; [simpl|discriminate].
  destruct (get m "instruction") as [i|] eqn:Hi; [simpl|discriminate].
  destruct (get step "distance") as [d|]; [simpl|discriminate].
  destruct (get step "duration") as [t|]; [simpl|discriminate].
  destruct (get m "type") as [ty|] eqn:Hty; [simpl|discriminate].
  destruct (get m "modifier") as [md|] eqn:Hmd; [simpl|discriminate].
  intros H. injection H as <-. simpl.
  repeat split; auto. exists m. auto.
Qed.

Section EveryResponse.
Variable ToNumber_text : jsval -> option Q.

(** Whatever the response, a non-empty result is the image of the whole
    [routes] array under [mapRoute]. *)
Lemma getDirections_inv (response : fetch_outcome) :
  getDirections ToNumber_text response = [] \/
  exists data rs,
    response = Parsed data /\
    get data "routes" = Normal (JArr rs) /\
    map_from mapRoute 0 rs = Normal (getDirections ToNumber_text response).
Proof.
  destruct response as [| |data]; [left; reflexivity|left; reflexivity|].
  unfold getDirections, directions_body.
  destruct (get data "routes") as [v|] eqn:Hv; [simpl|left; reflexivity].
  destruct (truthy v); [|left; reflexivity].
  destruct (get v "length") as [len|]; [simpl|left; reflexivity].
  destruct (gt_zero ToNumber_text len); [|left; reflexivity].
  destruct v as [| | | | |rs|]; simpl; try (left; reflexivity).
  destruct (map_from mapRoute 0 rs) as [mapped|] eqn:Hm;
    [|left; reflexivity].
  right. exists data, rs. auto.
Qed.

Lemma getDirections_position
  (response : fetch_outcome) (i : nat) (r : Route) :
  nth_error (getDirections ToNumber_text response) i = Some r ->
  route_id r = "route-" ++ index_text i /\
  isAlternative r = (0 <? i)%nat.
Proof.
  intros Hi.
  destruct (getDirections_inv response) as [E|(data & rs & _ & _ & Hm)].
  - rewrite E in Hi. destruct i; discriminate.
  - destruct (map_from_inv mapRoute rs 0 _ Hm) as [_ Hnth].
    destruct (Hnth i r Hi) as (route & _ & Hcall).
    destruct (mapRoute_inv route (0 + i) r Hcall) as (Hid & Halt & _).
    auto.
Qed.

(** X1.  Whatever the response, the route returned at position [i] has id
    "route-i" and is flagged as alternative exactly when [i > 0]. *)
Theorem getDirections_ids_by_position
  (response : fetch_outcome) (i : nat) (r : Route) :
  nth_error (getDirections ToNumber_text response) i = Some r ->
  route_id r = "route-" ++ index_text i /\
  isAlternative r = (0 <? i)%nat.
Proof. apply getDirections_position. Qed.

(** X2.  Whatever the response, the ids of the returned routes are pairwise
    distinct. *)
Theorem getDirections_ids_distinct (response : fetch_outcome) :
  NoDup (map route_id (getDirections ToNumber_text response)).
Proof.
  apply (proj2 (NoDup_nth_error _)).
  intros i j Hi E. rewrite length_map in Hi.
  rewrite !nth_error_map in E.
  destruct (nth_error (getDirections ToNumber_text response) i) as [ri|] eqn:Hri.
  2:{ apply nth_error_None in Hri. lia. }
  destruct (nth_error (getDirections ToNumber_text response) j) as [rj|] eqn:Hrj;
    [|discriminate].
  simpl in E. injection E as E.
  destruct (getDirections_position response i ri Hri) as [Ii _].
  destruct (getDirections_position response j rj Hrj) as [Ij _].
  rewrite Ii, Ij in E. simpl in E. injection E as E.
  apply index_text_inj. exact E.
Qed.
End EveryResponse.

Section Normalisation.
Variable ToNumber_text : jsval -> option Q.

Lemma mapStep_has_maneuver (step : jsval) (j : nat) (st : RouteStep) :
  mapStep step j = Normal st -> has_maneuver step = true.
Proof.
  intros H. destruct (mapStep_inv step j st H) as (_ & _ & m & Hm & Hi & _).
  unfold has_maneuver. rewrite Hm.
  destruct m; simpl in *; try reflexivity; discriminate.
Qed.

Lemma mapRoute_well_formed (route : jsval) (index : nat) (r : Route) :
  mapRoute route index = Normal r -> well_formed_route route = true.
Proof.
  intros H.
  destruct (mapRoute_inv route index r H) as (_ & _ & _ & _ & _ & ss & Hss & Hm).
  unfold well_formed_route. rewrite Hss.
  destruct (map_from_inv mapStep ss 0 _ Hm) as [Hlen Hnth].
  apply forallb_forall. intros step Hin.
  destruct (In_nth_error _ _ Hin) as [j Hj].
  assert (Hlt : (j < List.length (steps r))%nat).
  { rewrite Hlen. apply nth_error_Some. congruence. }
  destruct (nth_error (steps r) j) as [st|] eqn:Hst.
  2:{ apply nth_error_None in Hst. lia. }
  destruct (Hnth j st Hst) as (step' & Hj' & Hcall).
  assert (step' = step) by congruence. subst step'.
  exact (mapStep_has_maneuver step (0 + j) st Hcall).
Qed.

(** X3.  [getDirections] returns a non-empty list exactly when the response
    was parsed, its [routes] is a non-empty array and every route in it has
    a first leg with a [steps] array whose steps each carry a [maneuver]
    that is neither [null] nor [undefined] (an object or any other value
    whose properties can be read); any other response (failed request,
    [routes] missing or not an array, one route without legs, without steps
    or with a step whose maneuver is missing) gives the empty list.  For an
    array of N routes the result has N routes or none. *)
Theorem getDirections_nonempty_iff (response : fetch_outcome) :
  (getDirections ToNumber_text response <> [] <->
   exists data rs,
     response = Parsed data /\
     get data "routes" = Normal (JArr rs) /\
     rs <> [] /\
     forallb well_formed_route rs = true) /\
  (forall data rs,
     response = Parsed data ->
     get data "routes" = Normal (JArr rs) ->
     getDirections ToNumber_text response = [] \/
     List.length (getDirections ToNumber_text response) = List.length rs).
Proof.
  split; [split|].
  - intros Hne.
    destruct (getDirections_inv ToNumber_text response)
      as [E|(data & rs & Hresp & Hroutes & Hm)]; [contradiction|].
    exists data, rs.
    destruct (map_from_inv mapRoute rs 0 _ Hm) as [Hlen Hnth].
    split; [exact Hresp|]. split; [exact Hroutes|]. split.
    + intros ->. simpl in Hlen. apply length_zero_iff_nil in Hlen.
      contradiction.
    + apply forallb_forall. intros route Hin.
      destruct (In_nth_error _ _ Hin) as [i Hi].
      destruct (nth_error (getDirections ToNumber_text response) i)
        as [r|] eqn:Hr.
      2:{ apply nth_error_None in Hr.
          assert (i < List.length rs)%nat
            by (apply nth_error_Some; congruence). lia. }
      destruct (Hnth i r Hr) as (route' & Hi' & Hcall).
      assert (route' = route) by congruence. subst route'.
      exact (mapRoute_well_formed route (0 + i) r Hcall).
  - intros (data & rs & -> & Hroutes & Hne & Hwf).
    unfold getDirections.
    rewrite (directions_body_array ToNumber_text data rs Hroutes).
    destruct (map_from_Normal mapRoute (fun _ _ _ => True) rs 0)
      as (bs & Hbs & Hlen & _).
    { intros k route Hk. rewrite forallb_forall in Hwf.
      pose proof (Hwf route (nth_error_In _ _ Hk)) as Hr.
      unfold well_formed_route in Hr.
      destruct (first_leg_steps route) as [ss|] eqn:Hfirst; [|discriminate].
      destruct (mapRoute_Normal route (0 + k) ss Hfirst Hr) as (r & Hmap & _).
      exists r. auto. }
    destruct rs as [|r0 rest]; [contradiction|].
    rewrite Hbs. intros ->. discriminate Hlen.
  - intros data rs Hresp Hroutes.
    destruct (getDirections_inv ToNumber_text response)
      as [E|(data' & rs' & Hresp' & Hroutes' & Hm)]; [left; exact E|].
    right. rewrite Hresp in Hresp'. injection Hresp' as <-.
    assert (rs' = rs) by congruence. subst rs'.
    exact (proj1 (map_from_inv mapRoute rs 0 _ Hm)).
Qed.

(** X4.  Every returned route carries the distance, duration and geometry
    found on the route object at the same position of the response, and
    each of its steps carries the distance, the duration and the maneuver's
    instruction, type and modifier found on the step at the same position
    of the first leg; nothing is added, dropped or reordered. *)
Theorem getDirections_copies_fields
  (data : jsval) (rs : list jsval) (i : nat) (route : jsval) (r : Route) :
  get data "routes" = Normal (JArr rs) ->
  nth_error rs i = Some route ->
  nth_error (getDirections ToNumber_text (Parsed data)) i = Some r ->
  get route "distance" = Normal (route_distance r) /\
  get route "duration" = Normal (route_duration r) /\
  get route "geometry" = Normal (geometry r) /\
  exists ss,
    first_leg_steps route = Some ss /\
    List.length (steps r) = List.length ss /\
    forall j step st,
      nth_error ss j = Some step ->
      nth_error (steps r) j = Some st ->
      get step "distance" = Normal (step_distance st) /\
      get step "duration" = Normal (step_duration st) /\
      exists m,
        get step "maneuver" = Normal m /\
        get m "instruction" = Normal (instruction st) /\
        get m "type" = Normal (maneuver_type st) /\
        get m "modifier" = Normal (maneuver_modifier st).
Proof.
  intros Hroutes Hi Hr.
  destruct (getDirections_inv ToNumber_text (Parsed data))
    as [E|(data' & rs' & Hresp & Hroutes' & Hm)].
  { rewrite E in Hr. destruct i; discriminate. }
  injection Hresp as <-.
  assert (rs' = rs) by congruence. subst rs'.
  destruct (map_from_inv mapRoute rs 0 _ Hm) as [_ Hnth].
  destruct (Hnth i r Hr) as (route' & Hi' & Hcall).
  assert (route' = route) by congruence. subst route'.
  destruct (mapRoute_inv route (0 + i) r Hcall)
    as (_ & _ & Hd & Ht & Hg & ss & Hss & Hsteps).
  split; [exact Hd|]. split; [exact Ht|]. split; [exact Hg|].
  exists ss.
  destruct (map_from_inv mapStep ss 0 _ Hsteps) as [Hlen Hnth'].
  split; [exact Hss|]. split; [exact Hlen|].
  intros j step st Hj Hst.
  destruct (Hnth' j st Hst) as (step' & Hj' & Hcall').
  assert (step' = step) by congruence. subst step'.
  exact (mapStep_inv step (0 + j) st Hcall').
Qed.

(** X5.  [geocodeAddress] looks at the first feature only: when its
    [center] is an array the result is its first two items as [lng] and
    [lat] ([undefined] for a missing item), whatever follows; when the first
    feature has no [center] the result is absent even if later features
    have one. *)
Theorem geocodeAddress_first_feature
  (data first : jsval) (rest : list jsval) :
  get data "features" = Normal (JArr (first :: rest)) ->
  (forall items,
     get first "center" = Normal (JArr items) ->
     geocodeAddress ToNumber_text (Parsed data)
     = Some (mkCoordinates (nth 0 items JUndefined)
                           (nth 1 items JUndefined))) /\
  (forall center,
     get first "center" = Normal center -> nullish center = true ->
     geocodeAddress ToNumber_text (Parsed data) = None) /\
  (nullish first = true ->
   geocodeAddress ToNumber_text (Parsed data) = None).
Proof.
  intros Hf. unfold geocodeAddress, geocode_body. rewrite Hf. simpl.
  repeat split.
  - intros items Hc. rewrite Hc. reflexivity.
  - intros center Hc Hn. rewrite Hc.
    destruct center; try discriminate; reflexivity.
  - intros Hn. destruct first; try discriminate; reflexivity.
Qed.

End Normalisation.

Lemma getDirections_ids_by_position_witness :
  exists r,
    nth_error (getDirections no_text_number (Parsed two_routes_response)) 1
    = Some r /\
    route_id r = "route-1" /\ isAlternative r = true.
Proof.
  eexists. split; [reflexivity|].
  exact (getDirections_ids_by_position no_text_number
           (Parsed two_routes_response) 1 _ eq_refl).
Defined.

Lemma getDirections_copies_fields_witness :
  exists r,
    nth_error (getDirections no_text_number (Parsed two_routes_response)) 1
    = Some r /\
    Normal (JNum 1500) = Normal (route_distance r) /\
    List.length (steps r) = 2%nat.
Proof.
  eexists. split; [reflexivity|].
  destruct (getDirections_copies_fields no_text_number two_routes_response
              _ 1 _ _ eq_refl eq_refl eq_refl)
    as (Hd & _ & _ & ss & Hss & Hlen & _).
  split; [exact Hd|].
  injection Hss as <-. exact Hlen.
Defined.

Lemma geocodeAddress_first_feature_witness :
  geocodeAddress no_text_number (Parsed geocode_response)
  = Some (mkCoordinates (JNum (-46.6333)) (JNum (-23.5505))).
Proof.
  exact (proj1 (geocodeAddress_first_feature no_text_number geocode_response
                  _ _ eq_refl) _ eq_refl).
Defined.


Lemma geocodeAddress_absent_witness :
  geocodeAddress no_text_number (Parsed (JObj [("features", JArr [])]))
  = None /\
  geocodeAddress no_text_number (Parsed (JObj [("message", JStr "Not Found")]))
  = None.
Proof.
  destruct (geocodeAddress_absent no_text_number) as (_ & _ & Hempty & Hmiss).
  split.
  - exact (Hempty (JObj [("features", JArr [])]) eq_refl).
  - exact (Hmiss (JObj [("message", JStr "Not Found")]) eq_refl).
Defined.

(** ** Geometry: exactness of the haversine distance on great circles *)

(** When the haversine term is [sin d * sin d] for an angle [d] of at most
    a quarter turn, the distance is the arc of angle [2 d]. *)
Lemma distance_of_half_angle (a b : Coordinates R) (d : R) :
  (0 <= d <= PI / 2)%R ->
  haversine_a a b = (sin d * sin d)%R ->
  calculateDistance a b = (earth_radius * (2 * d))%R.
Proof.
  intros [Hd0 Hd1] Ha. unfold calculateDistance. cbv zeta. rewrite Ha.
  assert (Hs : (0 <= sin d)%R).
  { apply sin_ge_0; [exact Hd0|]. pose proof PI2_RGT_0. Lra.lra. }
  assert (Hc : (0 <= cos d)%R) by (apply cos_ge_0; Lra.lra).
  rewrite (sqrt_square _ Hs).
  replace (1 - sin d * sin d)%R with (cos d * cos d)%R.
  2:{ pose proof (sin2_cos2 d) as H. unfold Rsqr in H. Lra.lra. }
  rewrite (sqrt_square _ Hc).
  f_equal. f_equal. unfold Math_atan2.
  destruct (Rlt_dec 0 (cos d)) as [Hpos|Hnpos].
  - assert (Hlt : (d < PI / 2)%R).
    { destruct Hd1 as [Hlt|Heq]; [exact Hlt|].
      rewrite Heq, cos_PI2 in Hpos. exfalso. Lra.lra. }
    change (sin d / cos d)%R with (tan d). apply atan_tan. Lra.lra.
  - destruct (Rlt_dec (cos d) 0) as [Hneg|_]; [exfalso; Lra.lra|].
    assert (Hc0 : cos d = 0%R) by Lra.lra.
    assert (Hd : d = (PI / 2)%R).
    { destruct Hd1 as [Hlt|Heq]; [|exact Heq].
      assert (0 < cos d)%R by (apply cos_gt_0; Lra.lra). exfalso. Lra.lra. }
    rewrite Hd, sin_PI2.
    destruct (Rlt_dec 0 1) as [_|H]; [reflexivity|exfalso; Lra.lra].
Qed.

Lemma meridian_arc_up (lambda phi1 phi2 : R) :
  (0 <= phi2 - phi1 <= 180)%R ->
  calculateDistance (mkCoordinates lambda phi1) (mkCoordinates lambda phi2)
  = (earth_radius * ((phi2 - phi1) * PI / 180))%R.
Proof.
  intros H. pose proof PI_RGT_0 as Hpi.
  rewrite (distance_of_half_angle _ _ ((phi2 - phi1) * PI / 180 / 2)).
  - f_equal. Lra.lra.
  - split; [apply Rmult_le_pos; [|Lra.lra];
            apply Rmult_le_pos; [|Lra.lra]; Lra.nra|].
    Lra.nra.
  - unfold haversine_a. cbn [lat lng]. cbv zeta.
    replace ((lambda - lambda) * PI / 180 / 2)%R with 0%R by Lra.lra.
    rewrite sin_0. ring.
Qed.

Lemma equator_arc_east (lambda1 lambda2 : R) :
  (0 <= lambda2 - lambda1 <= 180)%R ->
  calculateDistance (mkCoordinates lambda1 0%R) (mkCoordinates lambda2 0%R)
  = (earth_radius * ((lambda2 - lambda1) * PI / 180))%R.
Proof.
  intros H. pose proof PI_RGT_0 as Hpi.
  rewrite (distance_of_half_angle _ _ ((lambda2 - lambda1) * PI / 180 / 2)).
  - f_equal. Lra.lra.
  - split; [apply Rmult_le_pos; [|Lra.lra];
            apply Rmult_le_pos; [|Lra.lra]; Lra.nra|].
    Lra.nra.
  - unfold haversine_a. cbn [lat lng]. cbv zeta.
    replace ((0 - 0) * PI / 180 / 2)%R with 0%R by Lra.lra.
    replace (0 * PI / 180)%R with 0%R by Lra.lra.
    rewrite sin_0, cos_0. ring.
Qed.

(** X9.  Along a meridian the distance is exact: two points with the same
    longitude whose latitudes differ by at most 180 degrees are
    [6371000 * |difference| * PI / 180] meters apart. *)
Theorem calculateDistance_meridian (lambda phi1 phi2 : R) :
  (Rabs (phi2 - phi1) <= 180)%R ->
  calculateDistance (mkCoordinates lambda phi1) (mkCoordinates lambda phi2)
  = (earth_radius * (Rabs (phi2 - phi1) * PI / 180))%R.
Proof.
  intros H. unfold Rabs in *.
  destruct (Rcase_abs (phi2 - phi1)) as [Hneg|Hpos].
  - unfold calculateDistance. cbv zeta. rewrite haversine_a_sym.
    fold (calculateDistance (mkCoordinates lambda phi2)
                            (mkCoordinates lambda phi1)).
    rewrite meridian_arc_up by Lra.lra. f_equal. Lra.lra.
  - apply meridian_arc_up. Lra.lra.
Qed.

(** X10.  Along the equator the distance is exact as well: two points of
    latitude 0 whose longitudes differ by at most 180 degrees are
    [6371000 * |difference| * PI / 180] meters apart. *)
Theorem calculateDistance_equator (lambda1 lambda2 : R) :
  (Rabs (lambda2 - lambda1) <= 180)%R ->
  calculateDistance (mkCoordinates lambda1 0%R) (mkCoordinates lambda2 0%R)
  = (earth_radius * (Rabs (lambda2 - lambda1) * PI / 180))%R.
Proof.
  intros H. unfold Rabs in *.
  destruct (Rcase_abs (lambda2 - lambda1)) as [Hneg|Hpos].
  - unfold calculateDistance. cbv zeta. rewrite haversine_a_sym.
    fold (calculateDistance (mkCoordinates lambda2 0%R)
                            (mkCoordinates lambda1 0%R)).
    rewrite equator_arc_east by Lra.lra. f_equal. Lra.lra.
  - apply equator_arc_east. Lra.lra.
Qed.

Lemma PI_between : (3.14 < PI < 3.15)%R.
Proof.
  pose proof (Machin.PI_2_3_7_ineq 1) as [Hlo Hhi].
  unfold sum_f_R0, tg_alt, Machin.PI_2_3_7_tg, Ratan_seq in Hlo, Hhi.
  simpl in Hlo, Hhi. split; Lra.lra.
Qed.

(** X11.  Two points one degree of latitude apart on the same meridian are
    111000 meters apart to within one percent. *)
Theorem calculateDistance_one_degree_latitude (lambda phi : R) :
  (Rabs (calculateDistance (mkCoordinates lambda phi)
                           (mkCoordinates lambda (phi + 1)%R) - 111000)
   <= 1110)%R.
Proof.
  rewrite meridian_arc_up by Lra.lra.
  pose proof PI_between as [Hlo Hhi]. unfold earth_radius.
  apply Rabs_le. split; Lra.lra.
Qed.

Lemma calculateDistance_meridian_witness :
  (Rabs (90 - 0) <= 180)%R /\
  calculateDistance (mkCoordinates 0%R 0%R) (mkCoordinates 0%R 90%R)
  = (earth_radius * (Rabs (90 - 0) * PI / 180))%R.
Proof.
  assert (H : (Rabs (90 - 0) <= 180)%R).
  { unfold Rabs. destruct (Rcase_abs (90 - 0)); Lra.lra. }
  split; [exact H|].
  exact (calculateDistance_meridian 0%R 0%R 90%R H).
Defined.

Lemma calculateDistance_equator_witness :
  (Rabs (0 - 180) <= 180)%R /\
  calculateDistance antimeridian_equator greenwich_equator
  = (earth_radius * (Rabs (0 - 180) * PI / 180))%R.
Proof.
  assert (H : (Rabs (0 - 180) <= 180)%R).
  { unfold Rabs. destruct (Rcase_abs (0 - 180)); Lra.lra. }
  split; [exact H|].
  exact (calculateDistance_equator 180%R 0%R H).
Defined.

(** ** Session controller: what every run keeps *)

Lemma consistent_stopped (st : NavigationState) : consistent (stopped st).
Proof.
  unfold consistent, stopped. simpl.
  split; [reflexivity|]. split; [tauto|].
  intros H. contradiction.
Qed.

Lemma consistent_with_currentLocation (c : Coordinates R)
  (st : NavigationState) :
  consistent st -> consistent (with_currentLocation c st).
Proof. unfold consistent, with_currentLocation. simpl. auto. Qed.

Lemma consistent_with_isDarkMode (b : bool) (st : NavigationState) :
  consistent st -> consistent (with_isDarkMode b st).
Proof. unfold consistent, with_isDarkMode. simpl. auto. Qed.

Lemma consistent_with_endpoints (o d : Coordinates R)
  (st : NavigationState) :
  consistent st -> consistent (with_endpoints o d st).
Proof.
  unfold consistent, with_endpoints. simpl.
  intros (Hi & _ & Hne).
  split; [exact Hi|]. split; [|exact Hne].
  split; intros H; discriminate H.
Qed.

Lemma consistent_with_routes (found : list Route) (st : NavigationState) :
  consistent st -> consistent (with_routes found st).
Proof.
  unfold consistent, with_routes. simpl.
  intros (Hi & Hod & _).
  split; [exact Hi|]. split; [exact Hod|].
  intros Hne. destruct found; [contradiction|discriminate].
Qed.

(** Whatever route is passed, also one that is no longer stored. *)
Lemma consistent_with_selectedRoute (route : Route) (st : NavigationState) :
  consistent st -> consistent (with_selectedRoute route st).
Proof.
  unfold consistent, with_selectedRoute. simpl.
  intros (Hi & Hod & _).
  split; [exact Hi|]. split; [exact Hod|].
  intros _. discriminate.
Qed.

Lemma consistent_started (st : NavigationState) :
  consistent st -> consistent (started st).
Proof.
  unfold consistent, started. simpl. intros (_ & H). split; [reflexivity|].
  exact H.
Qed.

Lemma consistent_watchPositionCallback
  (rendered s : Session) (newLocation : Coordinates R) :
  consistent (state s) ->
  consistent (state (watchPositionCallback rendered newLocation s)).
Proof.
  intros H. unfold watchPositionCallback.
  pose proof (consistent_with_currentLocation newLocation _ H) as H1.
  destruct (origin (state rendered)); [|exact H1].
  destruct (destination (state rendered)); [|exact H1].
  destruct (selectedRoute (state rendered)) as [route|]; [|exact H1].
  destruct (nth_error (steps route) (currentStepIndex (state rendered)));
    [|exact H1].
  destruct (Rlt_dec _ _); [|exact H1].
  destruct (isVoiceEnabled rendered);
    exact (consistent_stopped (with_currentLocation newLocation (state s))).
Qed.

Lemma consistent_handleSearch
  (originCoords destCoords : option (Coordinates R)) (found : list Route)
  (s : Session) :
  consistent (state s) ->
  consistent (state (handleSearch originCoords destCoords found s)).
Proof.
  intros H. unfold handleSearch.
  destruct (String.eqb (originInput s) "" || String.eqb (destinationInput s) "")%bool;
    [exact H|].
  destruct originCoords as [o|]; [|exact H].
  destruct destCoords as [d|]; [|exact H].
  exact (consistent_with_routes found _
           (consistent_with_endpoints o d _ H)).
Qed.

Lemma consistent_handle (e : event) (s : Session) :
  consistent (state s) -> consistent (state (handle e s)).
Proof.
  intros H. destruct e; cbn [handle].
  - exact (consistent_with_currentLocation coords _ H).
  - exact H.
  - exact H.
  - exact (consistent_handleSearch originCoords destCoords found s H).
  - destruct (nth_error (routes (state s)) index) as [route|] eqn:Hr;
      [|exact H].
    exact (consistent_with_selectedRoute route _ H).
  - unfold handleStartNavigation.
    destruct (selectedRoute (state s)) as [route|]; [|exact H].
    destruct (isVoiceEnabled s);
      [destruct (nth_error (steps route) 0)|];
      exact (consistent_started _ H).
  - exact (consistent_stopped (state s)).
  - exact (consistent_with_isDarkMode _ _ H).
  - exact H.
  - exact (consistent_watchPositionCallback s s newLocation H).
Qed.

Lemma consistent_search_begin (s : Session) :
  consistent (state s) -> consistent (state (fst (search_begin s))).
Proof.
  intros H. unfold search_begin.
  destruct (String.eqb (originInput s) "" || String.eqb (destinationInput s) "")%bool;
    exact H.
Qed.

Lemma consistent_search_resume (task : search_task) (r : resolution)
  (s s' : Session) (next : option search_task) :
  search_resume task r s = Some (s', next) ->
  consistent (state s) -> consistent (state s').
Proof.
  intros E H.
  destruct task as [text|[o|]|]; destruct r as [[d|]|found|];
    simpl in E; try discriminate; injection E as <- <-; try exact H.
  - exact (consistent_with_endpoints o d _ H).
  - exact (consistent_with_routes found _ H).
Qed.

Lemma app_reachable_consistent (a : App) :
  app_reachable a -> consistent (state (session a)).
Proof.
  induction 1 as [hour Hh|a a' Ha IH Hstep].
  - apply (consistent_with_isDarkMode _ initialState).
    unfold consistent. simpl.
    split; [reflexivity|]. split; [tauto|].
    intros H. contradiction.
  - destruct Hstep; cbn [session] in *.
    + exact (consistent_handle e s IH).
    + exact (consistent_watchPositionCallback rendered s newLocation IH).
    + exact (consistent_with_selectedRoute route _ IH).
    + exact (consistent_search_begin s IH).
    + exact (consistent_search_resume task r s s' next H IH).
Qed.

(** A session reached with searches run in one piece is reached as well
    when they run one [await] at a time. *)
Lemma run_app_reachable (events : list event) :
  forall s s',
    app_reachable (mkApp s []) ->
    run events s = Some s' ->
    app_reachable (mkApp s' []).
Proof.
  induction events as [|e rest IH]; intros s s' Hs Hrun; simpl in Hrun.
  - injection Hrun as <-. exact Hs.
  - destruct (enabled e s) eqn:He; [|discriminate].
    apply (IH (handle e s) s'); [|exact Hrun].
    destruct (is_control e) eqn:Hc.
    + apply (reach_next _ _ Hs). apply step_control; assumption.
    + destruct e; try discriminate Hc; simpl.
      * (* a search: its stretches, one after the other *)
        simpl in He. apply negb_true_iff in He.
        pose proof (step_search_begin s [] He) as B.
        unfold handleSearch. unfold search_begin in B.
        destruct (String.eqb (originInput s) ""
                  || String.eqb (destinationInput s) "")%bool;
          [exact Hs|].
        cbn [fst snd option_cons] in B.
        pose proof (reach_next _ _ Hs B) as R1.
        pose proof (reach_next _ _ R1
                      (step_search_resume [] []
                         (AwaitingOrigin (destinationInput s))
                         (Geocoded originCoords) _ _ _ eq_refl)) as R2.
        cbn [app option_cons] in R2.
        destruct originCoords as [o|]; destruct destCoords as [d|].
        -- pose proof (reach_next _ _ R2
                         (step_search_resume [] []
                            (AwaitingDestination (Some o))
                            (Geocoded (Some d)) _ _ _ eq_refl)) as R3.
           cbn [app option_cons] in R3.
           exact (reach_next _ _ R3
                    (step_search_resume [] [] AwaitingDirections
                       (Routed found) _ _ _ eq_refl)).
        -- exact (reach_next _ _ R2
                    (step_search_resume [] []
                       (AwaitingDestination (Some o))
                       (Geocoded None) _ _ _ eq_refl)).
        -- exact (reach_next _ _ R2
                    (step_search_resume [] [] (AwaitingDestination None)
                       (Geocoded (Some d)) _ _ _ eq_refl)).
        -- exact (reach_next _ _ R2
                    (step_search_resume [] [] (AwaitingDestination None)
                       (Geocoded None) _ _ _ eq_refl)).
      * (* a position from the watch registered by this render *)
        simpl in He. apply (reach_next _ _ Hs). apply step_watch. exact He.
Qed.

Lemma reachable_app_reachable (s : Session) :
  reachable s -> app_reachable (mkApp s []).
Proof.
  intros (hour & events & Hh & Hrun).
  apply (run_app_reachable events _ s (reach_mounted hour Hh) Hrun).
Qed.

(** X12.  In every reachable state of the application, whatever searches
    overlap, the step index is 0: no handler ever advances it. *)
Theorem currentStepIndex_always_zero (a : App) :
  app_reachable a -> currentStepIndex (state (session a)) = 0%nat.
Proof. intros H. exact (proj1 (app_reachable_consistent a H)). Qed.

(** X13.  In every reachable state origin and destination are set together
    or absent together. *)
Theorem origin_and_destination_together (a : App) :
  app_reachable a ->
  (origin (state (session a)) = None <->
   destination (state (session a)) = None).
Proof.
  intros H. exact (proj1 (proj2 (app_reachable_consistent a H))).
Qed.

(** X14.  In every reachable state with a non-empty route list a route is
    selected, whatever searches overlap and whichever render a click on a
    route button comes from. *)
Theorem selection_whenever_routes (a : App) :
  app_reachable a ->
  routes (state (session a)) <> [] ->
  selectedRoute (state (session a)) <> None.
Proof.
  intros H. exact (proj2 (proj2 (app_reachable_consistent a H))).
Qed.

Lemma currentStepIndex_always_zero_witness :
  app_reachable (mkApp navigating_at_night []) /\
  currentStepIndex (state navigating_at_night) = 0%nat.
Proof.
  pose proof (reachable_app_reachable _ navigating_at_night_reachable) as H.
  split; [exact H|].
  exact (currentStepIndex_always_zero (mkApp navigating_at_night []) H).
Defined.

Lemma selection_whenever_routes_witness :
  app_reachable (mkApp navigating_at_night []) /\
  routes (state navigating_at_night) <> [] /\
  selectedRoute (state navigating_at_night) <> None.
Proof.
  pose proof (reachable_app_reachable _ navigating_at_night_reachable) as H.
  assert (Hne : routes (state navigating_at_night) <> []) by discriminate.
  split; [exact H|]. split; [exact Hne|].
  exact (selection_whenever_routes (mkApp navigating_at_night []) H Hne).
Defined.

(** ** Session controller: overlapping searches and arrival *)

Ltac then_control e :=
  match goal with
  | R : app_reachable (mkApp ?s ?tasks) |- _ =>
      pose proof (reach_next _ _ R (step_control e s tasks eq_refl eq_refl));
      clear R
  end.

Ltac then_search_begin :=
  match goal with
  | R : app_reachable (mkApp ?s ?tasks) |- _ =>
      pose proof (reach_next _ _ R (step_search_begin s tasks eq_refl));
      clear R
  end.

Ltac then_search_resume before after task r :=
  match goal with
  | R : app_reachable (mkApp ?s _) |- _ =>
      pose proof (reach_next _ _ R
                    (step_search_resume before after task r s _ _ eq_refl));
      clear R
  end.

Lemma stopped_mid_search_reachable :
  app_reachable (mkApp stopped_mid_search []).
Proof.
  assert (R0 : app_reachable (mkApp (autoDarkMode 20 initialSession) []))
    by (apply reach_mounted; lia).
  then_control (OnTypeOrigin "Av. Paulista").
  then_control (OnTypeDestination "Ibirapuera").
  (* the first search, start to end *)
  then_search_begin.
  then_search_resume (@nil search_task) (@nil search_task)
    (AwaitingOrigin "Ibirapuera") (Geocoded (Some antimeridian_equator)).
  then_search_resume (@nil search_task) (@nil search_task)
    (AwaitingDestination (Some antimeridian_equator))
    (Geocoded (Some greenwich_equator)).
  then_search_resume (@nil search_task) (@nil search_task)
    AwaitingDirections (Routed [sample_route]).
  (* the second search, up to its directions request *)
  then_search_begin.
  then_search_resume (@nil search_task) (@nil search_task)
    (AwaitingOrigin "Ibirapuera") (Geocoded (Some antimeridian_equator)).
  then_search_resume (@nil search_task) (@nil search_task)
    (AwaitingDestination (Some antimeridian_equator))
    (Geocoded (Some greenwich_equator)).
  (* start, stop, the late answer, start again *)
  then_control OnStartNavigation.
  then_control OnStopNavigation.
  then_search_resume (@nil search_task) (@nil search_task)
    AwaitingDirections (Routed [sample_route]).
  then_control OnStartNavigation.
  assumption.
Qed.

Lemma origin_and_destination_together_witness :
  app_reachable (mkApp stopped_mid_search []) /\
  (origin (state stopped_mid_search) = None <->
   destination (state stopped_mid_search) = None).
Proof.
  pose proof stopped_mid_search_reachable as H.
  split; [exact H|].
  exact (origin_and_destination_together (mkApp stopped_mid_search []) H).
Defined.

(** X15.  A directions answer that arrives after a stop is still stored:
    the application can reach a state that is navigating on a selected
    route with steps while origin and destination are absent, and in that
    state no position, however close, ends the navigation. *)
Theorem late_directions_navigate_without_endpoints :
  app_reachable (mkApp stopped_mid_search []) /\
  isNavigating (state stopped_mid_search) = true /\
  selectedRoute (state stopped_mid_search) = Some sample_route /\
  steps sample_route <> [] /\
  origin (state stopped_mid_search) = None /\
  destination (state stopped_mid_search) = None /\
  forall newLocation,
    watchPositionCallback stopped_mid_search newLocation stopped_mid_search
    = setState (with_currentLocation newLocation) stopped_mid_search.
Proof.
  split; [exact stopped_mid_search_reachable|].
  do 2 (split; [reflexivity|]). split; [discriminate|].
  do 2 (split; [reflexivity|]). intros newLocation. reflexivity.
Qed.

(** X16.  Search, start, arrive: from a session with both addresses typed,
    a search that finds [r0 :: rest] between [o] and [d] selects [r0] and
    opens the route panel; starting then sets the navigating flag with step
    index 0; and, when [r0] has a first step, a position closer than 50
    meters to [d] brings the navigation state back to the stopped shape
    (only the new location and the theme remain) and clears both inputs. *)
Theorem search_start_arrive
  (s : Session) (o d newLocation : Coordinates R)
  (r0 : Route) (rest : list Route) (step0 : RouteStep) :
  originInput s <> "" -> destinationInput s <> "" ->
  nth_error (steps r0) 0 = Some step0 ->
  (calculateDistance newLocation d < 50)%R ->
  let s1 := handleSearch (Some o) (Some d) (r0 :: rest) s in
  let s2 := handleStartNavigation s1 in
  let s3 := watchPositionCallback s2 newLocation s2 in
  (origin (state s1) = Some o /\ destination (state s1) = Some d /\
   routes (state s1) = r0 :: rest /\ selectedRoute (state s1) = Some r0 /\
   showRoutes s1 = true /\ isLoading s1 = false) /\
  (isNavigating (state s2) = true /\ currentStepIndex (state s2) = 0%nat /\
   selectedRoute (state s2) = Some r0) /\
  (state s3 = mkNavigationState None None (Some newLocation) [] None false 0
                (isDarkMode (state s)) /\
   originInput s3 = "" /\ destinationInput s3 = "" /\ showRoutes s3 = false).
Proof.
  intros Ho Hd Hstep Hnear. cbv zeta.
  assert (Hg : (String.eqb (originInput s) ""
                || String.eqb (destinationInput s) "")%bool = false).
  { apply orb_false_iff. split; apply String.eqb_neq; assumption. }
  unfold handleSearch. rewrite Hg. clear Hg Ho Hd.
  destruct s as [st originText destinationText voice loading shown done].
  unfold handleStartNavigation, watchPositionCallback.
  cbn -[calculateDistance nth_error]. rewrite Hstep.
  split; [repeat split|].
  destruct voice; cbn -[calculateDistance nth_error]; rewrite Hstep;
    (destruct (Rlt_dec (calculateDistance newLocation d) 50) as [_|Hn];
     [|exfalso; exact (Hn Hnear)]);
    repeat split.
Qed.

Lemma positions_keep_navigating (locations : list (Coordinates R)) :
  forall s r0,
    selectedRoute (state s) = Some r0 -> steps r0 = [] ->
    isNavigating (state s) = true ->
    isNavigating (state (positions_delivered locations s)) = true /\
    selectedRoute (state (positions_delivered locations s)) = Some r0.
Proof.
  induction locations as [|l rest IH]; intros s r0 Hsel Hsteps Hnav.
  - simpl. auto.
  - unfold positions_delivered. cbn [fold_left].
    assert (E : watchPositionCallback s l s
                = setState (with_currentLocation l) s).
    { unfold watchPositionCallback. rewrite Hsel, Hsteps.
      destruct (origin (state s)); [|reflexivity].
      destruct (destination (state s)); [|reflexivity].
      destruct (currentStepIndex (state s)); reflexivity. }
    rewrite E. apply (IH _ r0); assumption.
Qed.

(** X17.  A route without steps never arrives: when the selected route has
    an empty step list, navigation stays on and the route stays selected
    through any sequence of positions, also positions at the destination
    itself. *)
Theorem route_without_steps_never_arrives
  (s : Session) (r0 : Route) (locations : list (Coordinates R)) :
  selectedRoute (state s) = Some r0 -> steps r0 = [] ->
  isNavigating (state s) = true ->
  isNavigating (state (positions_delivered locations s)) = true /\
  selectedRoute (state (positions_delivered locations s)) = Some r0.
Proof. apply positions_keep_navigating. Qed.

Lemma search_start_arrive_witness :
  (calculateDistance greenwich_equator greenwich_equator < 50)%R /\
  state (watchPositionCallback
           (handleStartNavigation
              (handleSearch (Some antimeridian_equator)
                 (Some greenwich_equator) [sample_route; second_route]
                 addresses_typed))
           greenwich_equator
           (handleStartNavigation
              (handleSearch (Some antimeridian_equator)
                 (Some greenwich_equator) [sample_route; second_route]
                 addresses_typed)))
  = mkNavigationState None None (Some greenwich_equator) [] None false 0
      false.
Proof.
  assert (Hnear :
    (calculateDistance greenwich_equator greenwich_equator < 50)%R).
  { rewrite calculateDistance_same. Lra.lra. }
  split; [exact Hnear|].
  assert (Ho : originInput addresses_typed <> "") by discriminate.
  assert (Hd : destinationInput addresses_typed <> "") by discriminate.
  exact (proj1 (proj2 (proj2
           (search_start_arrive addresses_typed antimeridian_equator
              greenwich_equator greenwich_equator sample_route
              [second_route] sample_step Ho Hd eq_refl Hnear)))).
Defined.

Lemma route_without_steps_never_arrives_witness :
  selectedRoute (state navigating_stepless) = Some stepless_route /\
  isNavigating
    (state (positions_delivered [greenwich_equator; greenwich_equator]
              navigating_stepless)) = true.
Proof.
  split; [reflexivity|].
  exact (proj1 (route_without_steps_never_arrives navigating_stepless
                  stepless_route [greenwich_equator; greenwich_equator]
                  eq_refl eq_refl eq_refl)).
Defined.

(** ** Formatting: negative durations *)

(** X18.  A negative duration never shows hours.  For every negative
    number of seconds, with [k <= 0] the whole hours counted towards zero
    ([3600 k - 3600 < seconds <= 3600 k]), [formatDuration] prints "[m] min"
    where [m] is the number of whole minutes, counted downwards, of what
    remains ([3600 k + 60 m <= seconds < 3600 k + 60 m + 60]); so -7200
    gives "0 min", -3661 gives "-2 min" and -3599 gives "-60 min". *)
Theorem formatDuration_negative :
  (forall seconds : Q, (seconds < 0)%Q ->
     exists k m : Z,
       (k <= 0)%Z /\
       (3600 * inject_Z k - 3600 < seconds)%Q /\
       (seconds <= 3600 * inject_Z k)%Q /\
       (3600 * inject_Z k + 60 * inject_Z m <= seconds)%Q /\
       (seconds < 3600 * inject_Z k + 60 * inject_Z m + 60)%Q /\
       formatDuration seconds = string_of_Z m ++ " min") /\
  formatDuration (-7200) = "0 min" /\
  formatDuration (-3661) = "-2 min" /\
  formatDuration (-3599) = "-60 min".
Proof.
  split; [|repeat split; reflexivity].
  intros seconds Hneg.
  exists (Qceiling (seconds / 3600)), (Qfloor (js_rem seconds 3600 / 60)).
  assert (Hq : (seconds / 3600 < 0)%Q) by (unfold_Qdiv; Lqa.lra).
  assert (Hh : (Qfloor (seconds / 3600) < 0)%Z).
  { rewrite Zlt_Qlt. change (inject_Z 0) with 0%Q.
    destruct (Qfloor_bounds (seconds / 3600)) as [Hlo _]. Lqa.lra. }
  assert (Hr : js_rem seconds 3600
               = (seconds - 3600 * inject_Z (Qceiling (seconds / 3600)))%Q).
  { unfold js_rem, Q_trunc.
    apply Qlt_bool_true in Hq. rewrite Hq. reflexivity. }
  pose proof (Qle_ceiling (seconds / 3600)) as Hup.
  pose proof (Qceiling_lt (seconds / 3600)) as Hdown.
  replace (Qceiling (seconds / 3600) - 1)%Z
    with (Qceiling (seconds / 3600) + (-1))%Z in Hdown by lia.
  rewrite inject_Z_plus in Hdown.
  change (inject_Z (-1)) with (-1)%Q in Hdown.
  assert (Hk : (Qceiling (seconds / 3600) <= 0)%Z).
  { assert (H1 : (inject_Z (Qceiling (seconds / 3600)) < inject_Z 1)%Q).
    { change (inject_Z 1) with 1%Q. Lqa.lra. }
    rewrite <- Zlt_Qlt in H1. lia. }
  assert (Hout : formatDuration seconds
                 = string_of_Z (Qfloor (js_rem seconds 3600 / 60)) ++ " min").
  { unfold formatDuration, Math_floor.
    assert (E : (0 <? Qfloor (seconds / 3600))%Z = false)
      by (apply Z.ltb_ge; lia).
    rewrite E. reflexivity. }
  rewrite Hr in *.
  set (c := inject_Z (Qceiling (seconds / 3600))) in *.
  destruct (Qfloor_bounds ((seconds - 3600 * c) / 60)) as [Mlo Mhi].
  set (m := Qfloor ((seconds - 3600 * c) / 60)) in *.
  unfold_Qdiv.
  split; [exact Hk|].
  split; [Lqa.lra|]. split; [Lqa.lra|]. split; [Lqa.lra|].
  split; [Lqa.lra|]. exact Hout.
Qed.

Lemma formatDuration_negative_witness :
  (-3599 < 0)%Q /\
  exists k m : Z,
    (k <= 0)%Z /\
    (3600 * inject_Z k - 3600 < -3599)%Q /\
    (-3599 <= 3600 * inject_Z k)%Q /\
    (3600 * inject_Z k + 60 * inject_Z m <= -3599)%Q /\
    (-3599 < 3600 * inject_Z k + 60 * inject_Z m + 60)%Q /\
    formatDuration (-3599) = string_of_Z m ++ " min".
Proof.
  assert (H : (-3599 < 0)%Q) by (unfold Qlt; simpl; lia).
  split; [exact H|].
  exact (proj1 formatDuration_negative (-3599)%Q H).
Defined.

(** ** Page: the bounds fitted to the first route *)

Lemma Qmin_either (x y : Q) : Qmin x y = x \/ Qmin x y = y.
Proof.
  unfold Qmin, GenericMinMax.gmin. destruct (x ?= y)%Q; auto.
Qed.

Lemma Qmax_either (x y : Q) : Qmax x y = x \/ Qmax x y = y.
Proof.
  unfold Qmax, GenericMinMax.gmax. destruct (x ?= y)%Q; auto.
Qed.

Lemma fold_widen (coordinates : list (Q * Q)) :
  forall bounds,
    let final := fold_left widen coordinates bounds in
    (* the bounds only grow *)
    ((fst (fst final) <= fst (fst bounds))%Q /\
     (fst (snd bounds) <= fst (snd final))%Q /\
     (snd (fst final) <= snd (fst bounds))%Q /\
     (snd (snd bounds) <= snd (snd final))%Q) /\
    (* every pair is inside *)
    (forall p, In p coordinates -> within final p) /\
    (* each side is an initial side or touches a pair *)
    ((fst (fst final) = fst (fst bounds) \/
      exists p, In p coordinates /\ fst p = fst (fst final)) /\
     (fst (snd final) = fst (snd bounds) \/
      exists p, In p coordinates /\ fst p = fst (snd final)) /\
     (snd (fst final) = snd (fst bounds) \/
      exists p, In p coordinates /\ snd p = snd (fst final)) /\
     (snd (snd final) = snd (snd bounds) \/
      exists p, In p coordinates /\ snd p = snd (snd final))).
Proof.
  induction coordinates as [|c rest IH]; intros bounds; cbv zeta.
  - simpl. split; [repeat split; apply Qle_refl|].
    split; [intros p H; contradiction|].
    repeat split; left; reflexivity.
  - cbn [fold_left].
    destruct (IH (widen bounds c)) as ((G1 & G2 & G3 & G4) & Hin & T1 & T2 & T3 & T4).
    set (final := fold_left widen rest (widen bounds c)) in *.
    cbn [widen fst snd] in G1, G2, G3, G4, T1, T2, T3, T4.
    pose proof (Q.le_min_l (fst (fst bounds)) (fst c)) as A1.
    pose proof (Q.le_min_r (fst (fst bounds)) (fst c)) as A2.
    pose proof (Q.le_max_l (fst (snd bounds)) (fst c)) as A3.
    pose proof (Q.le_max_r (fst (snd bounds)) (fst c)) as A4.
    pose proof (Q.le_min_l (snd (fst bounds)) (snd c)) as B1.
    pose proof (Q.le_min_r (snd (fst bounds)) (snd c)) as B2.
    pose proof (Q.le_max_l (snd (snd bounds)) (snd c)) as B3.
    pose proof (Q.le_max_r (snd (snd bounds)) (snd c)) as B4.
    split; [repeat split; Lqa.lra|]. split.
    + intros p [<-|Hp]; [|exact (Hin p Hp)].
      unfold within. repeat split; Lqa.lra.
    + repeat split.
      * destruct T1 as [E|(p & Hp & E)]; [|right; exists p; simpl; auto].
        rewrite E. destruct (Qmin_either (fst (fst bounds)) (fst c)) as [M|M];
          rewrite M; [left; reflexivity|right; exists c; simpl; auto].
      * destruct T2 as [E|(p & Hp & E)]; [|right; exists p; simpl; auto].
        rewrite E. destruct (Qmax_either (fst (snd bounds)) (fst c)) as [M|M];
          rewrite M; [left; reflexivity|right; exists c; simpl; auto].
      * destruct T3 as [E|(p & Hp & E)]; [|right; exists p; simpl; auto].
        rewrite E. destruct (Qmin_either (snd (fst bounds)) (snd c)) as [M|M];
          rewrite M; [left; reflexivity|right; exists c; simpl; auto].
      * destruct T4 as [E|(p & Hp & E)]; [|right; exists p; simpl; auto].
        rewrite E. destruct (Qmax_either (snd (snd bounds)) (snd c)) as [M|M];
          rewrite M; [left; reflexivity|right; exists c; simpl; auto].
Qed.

(** X19.  The bounds computed for a non-empty coordinate list enclose every
    pair of the list, and each of the four sides passes through one of the
    pairs; an empty list makes the computation throw. *)
Theorem route_bounds_enclose :
  route_bounds [] = Throw /\
  forall first rest,
    exists bounds,
      route_bounds (first :: rest) = Normal bounds /\
      (forall p, In p (first :: rest) -> within bounds p) /\
      (exists p, In p (first :: rest) /\ fst p = fst (fst bounds)) /\
      (exists p, In p (first :: rest) /\ fst p = fst (snd bounds)) /\
      (exists p, In p (first :: rest) /\ snd p = snd (fst bounds)) /\
      (exists p, In p (first :: rest) /\ snd p = snd (snd bounds)).
Proof.
  split; [reflexivity|]. intros first rest.
  eexists. split; [reflexivity|].
  destruct (fold_widen (first :: rest)
              ((fst first, snd first), (fst first, snd first)))
    as (_ & Hin & T1 & T2 & T3 & T4).
  cbn [fst snd] in T1, T2, T3, T4.
  split; [exact Hin|].
  repeat split.
  - destruct T1 as [E|T]; [exists first; split; [left; reflexivity|auto]|exact T].
  - destruct T2 as [E|T]; [exists first; split; [left; reflexivity|auto]|exact T].
  - destruct T3 as [E|T]; [exists first; split; [left; reflexivity|auto]|exact T].
  - destruct T4 as [E|T]; [exists first; split; [left; reflexivity|auto]|exact T].
Qed.

(** ** Page: the routes drawn as alternatives *)

Lemma filter_not_selected_length (chosen : Route) (l : list Route) :
  NoDup (map route_id l) -> In chosen l ->
  S (List.length (filter (not_selected (Some chosen)) l)) = List.length l.
Proof.
  induction l as [|r rest IH]; intros Hnd Hin; [contradiction|].
  simpl in Hnd. apply NoDup_cons_iff in Hnd as [Hnotin Hnd].
  cbn [filter not_selected].
  destruct Hin as [->|Hin].
  - rewrite String.eqb_refl. cbn [negb]. simpl. f_equal.
    assert (E : filter (not_selected (Some chosen)) rest = rest).
    { apply forallb_filter_id. apply forallb_forall. intros x Hx.
      unfold not_selected. apply negb_true_iff. apply String.eqb_neq.
      intros Heq. apply Hnotin. rewrite <- Heq. apply in_map. exact Hx. }
    rewrite E. reflexivity.
  - destruct (String.eqb (route_id r) (route_id chosen)) eqn:E.
    + apply String.eqb_eq in E. exfalso. apply Hnotin. rewrite E.
      apply in_map. exact Hin.
    + cbn [negb]. simpl. f_equal. apply IH; assumption.
Qed.

(** X20.  Without a selection every stored route is drawn as an
    alternative.  When the stored routes have pairwise distinct ids, as the
    routes of one [getDirections] result have, and the selected route is one
    of them, the alternatives drawn are all the other routes: one fewer than
    the routes, none with the id of the selected route, and every route
    with another id among them. *)
Theorem alternativeRoutesGeoJSON_others (st : NavigationState) :
  (selectedRoute st = None ->
   alternativeRoutesGeoJSON st
   = map (fun route => mkRouteFeature (route_id route) (geometry route))
         (routes st)) /\
  (forall chosen,
     NoDup (map route_id (routes st)) ->
     selectedRoute st = Some chosen ->
     In chosen (routes st) ->
     S (List.length (alternativeRoutesGeoJSON st))
     = List.length (routes st) /\
     ~ In (route_id chosen) (map routeId (alternativeRoutesGeoJSON st)) /\
     (forall r, In r (routes st) -> route_id r <> route_id chosen ->
        In (mkRouteFeature (route_id r) (geometry r))
           (alternativeRoutesGeoJSON st))).
Proof.
  split.
  - intros Hnone. unfold alternativeRoutesGeoJSON. rewrite Hnone.
    f_equal. apply forallb_filter_id. apply forallb_forall. reflexivity.
  - intros chosen Hnd Hsel Hin. unfold alternativeRoutesGeoJSON. rewrite Hsel.
    split; [|split].
    + rewrite length_map. apply filter_not_selected_length; assumption.
    + rewrite map_map. cbn [routeId]. intros H.
      apply in_map_iff in H as (r & Hid & Hr).
      apply filter_In in Hr as [_ Hr]. unfold not_selected in Hr.
      apply negb_true_iff, String.eqb_neq in Hr. contradiction.
    + intros r Hr Hne.
      apply (in_map (fun route =>
                       mkRouteFeature (route_id route) (geometry route))).
      apply filter_In. split; [exact Hr|].
      unfold not_selected. apply negb_true_iff, String.eqb_neq. exact Hne.
Qed.

Lemma alternativeRoutesGeoJSON_others_witness :
  NoDup (map route_id (routes two_routes_selected)) /\
  In second_route (routes two_routes_selected) /\
  map routeId (alternativeRoutesGeoJSON two_routes_selected) = ["route-0"] /\
  S (List.length (alternativeRoutesGeoJSON two_routes_selected)) = 2%nat.
Proof.
  assert (Hnd : NoDup (map route_id (routes two_routes_selected))).
  { simpl. repeat constructor; simpl; intuition discriminate. }
  assert (Hin : In second_route (routes two_routes_selected))
    by (right; left; reflexivity).
  split; [exact Hnd|]. split; [exact Hin|]. split; [reflexivity|].
  exact (proj1 (proj2 (alternativeRoutesGeoJSON_others two_routes_selected)
                  second_route Hnd eq_refl Hin)).
Defined.

(** ** Session controller: the requests of a search *)

(** With both geocoding calls fulfilled the search is [handleSearch]. *)
Lemma handleSearch_settled_fulfilled
  (originCoords destCoords : option (Coordinates R)) (found : list Route)
  (s : Session) :
  handleSearch_settled (Fulfilled originCoords) (Fulfilled destCoords) found s
  = handleSearch originCoords destCoords found s.
Proof.
  unfold handleSearch_settled, handleSearch.
  destruct (String.eqb (originInput s) "" || String.eqb (destinationInput s) "")%bool;
    [reflexivity|].
  destruct originCoords, destCoords; reflexivity.
Qed.

(** X21.  A search with an empty origin or destination text does nothing at
    all.  Otherwise it calls [geocodeAddress] for the origin text; when
    that call rejects nothing else is called; when it is fulfilled
    [geocodeAddress] is called for the destination text, and
    [getDirections] is called exactly when both calls were fulfilled with
    coordinates.  In every one of these courses the search ends with the
    loading flag off, and when a call rejects the navigation state is left
    as it was. *)
Theorem handleSearch_requests
  (originCall destCall : settled (option (Coordinates R)))
  (found : list Route) (s : Session) :
  ((originInput s = "" \/ destinationInput s = "") ->
   handleSearch_settled originCall destCall found s = s) /\
  (originInput s <> "" -> destinationInput s <> "" ->
   isLoading (handleSearch_settled originCall destCall found s) = false /\
   effects (handleSearch_settled originCall destCall found s)
   = (match originCall, destCall with
      | Rejected, _ => [GeocodeCall (originInput s)]
      | Fulfilled (Some o), Fulfilled (Some d) =>
          [DirectionsCall o d true;
           GeocodeCall (destinationInput s); GeocodeCall (originInput s)]
      | Fulfilled _, _ =>
          [GeocodeCall (destinationInput s); GeocodeCall (originInput s)]
      end ++ effects s)%list /\
   (originCall = Rejected \/ destCall = Rejected ->
    state (handleSearch_settled originCall destCall found s) = state s)).
Proof.
  unfold handleSearch_settled. split.
  - intros [E|E]; rewrite E; [reflexivity|].
    rewrite orb_true_r. reflexivity.
  - intros Ho Hd.
    assert (Hg : (String.eqb (originInput s) ""
                  || String.eqb (destinationInput s) "")%bool = false).
    { apply orb_false_iff. split; apply String.eqb_neq; assumption. }
    rewrite Hg.
    destruct originCall as [[o|]|]; destruct destCall as [[d|]|];
      (split; [reflexivity|]); (split; [reflexivity|]);
      intros [E|E]; try discriminate E; reflexivity.
Qed.

Lemma handleSearch_requests_witness :
  originInput addresses_typed <> "" /\
  destinationInput addresses_typed <> "" /\
  effects (handleSearch_settled Rejected (Fulfilled (Some greenwich_equator))
             [sample_route] addresses_typed)
  = [GeocodeCall "Av. Paulista"] /\
  effects (handleSearch_settled (Fulfilled (Some antimeridian_equator))
             (Fulfilled None) [sample_route] addresses_typed)
  = [GeocodeCall "Ibirapuera"; GeocodeCall "Av. Paulista"] /\
  handleSearch_settled (Fulfilled (Some antimeridian_equator))
    (Fulfilled (Some greenwich_equator)) [sample_route] initialSession
  = initialSession.
Proof.
  assert (Ho : originInput addresses_typed <> "") by discriminate.
  assert (Hd : destinationInput addresses_typed <> "") by discriminate.
  split; [exact Ho|]. split; [exact Hd|]. split; [|split].
  - exact (proj1 (proj2 (proj2 (handleSearch_requests Rejected
             (Fulfilled (Some greenwich_equator)) [sample_route]
             addresses_typed) Ho Hd))).
  - exact (proj1 (proj2 (proj2 (handleSearch_requests
             (Fulfilled (Some antimeridian_equator)) (Fulfilled None)
             [sample_route] addresses_typed) Ho Hd))).
  - exact (proj1 (handleSearch_requests
             (Fulfilled (Some antimeridian_equator))
             (Fulfilled (Some greenwich_equator)) [sample_route]
             initialSession) (or_introl eq_refl)).
Defined.
